(** * ReadmeGenerator: a model of [src/components/ReadmeGenerator.tsx]

    The component keeps the project form in React state, sends one chat
    completion request to the Groq endpoint and offers the returned text
    for copy and download.  The event handlers of the component are
    embedded here as functions on an explicit world: the React state of
    the component, the browser's [localStorage] and the log of the
    effects the handlers perform (toasts, the network request, console
    output, clipboard and download). *)

From Stdlib Require Import NArith ZArith String Ascii PrimFloat.
From stdpp Require Import base option list gmap.

Open Scope Z_scope.
Open Scope list_scope.

(** ** JavaScript strings *)

(** A JavaScript string is a sequence of UTF-16 code units. *)
Abbreviation code_unit := N (only parsing).
Abbreviation jsstring := (list N) (only parsing).

(** The code units of an ASCII literal of the source. *)
Definition str (s : string) : jsstring :=
  N_of_ascii <$> list_ascii_of_string s.

(** [WhiteSpace] and [LineTerminator] of ECMAScript: the code units that
    [String.prototype.trim] strips. *)
Definition is_whitespace (c : code_unit) : bool :=
  ((9 <=? c) && (c <=? 13) || (c =? 32) || (c =? 160) || (c =? 5760)
   || (8192 <=? c) && (c <=? 8202) || (c =? 8232) || (c =? 8233)
   || (c =? 8239) || (c =? 8287) || (c =? 12288) || (c =? 65279))%N.

Fixpoint trimStart (s : jsstring) : jsstring :=
  match s with
  | c :: s' => if is_whitespace c then trimStart s' else s
  | [] => []
  end.

Definition trimEnd (s : jsstring) : jsstring :=
  reverse (trimStart (reverse s)).

(** [s.trim()] *)
Definition trim (s : jsstring) : jsstring := trimEnd (trimStart s).

(** [xs.join(sep)] on an array of strings. *)
Fixpoint join (sep : jsstring) (xs : list jsstring) : jsstring :=
  match xs with
  | [] => []
  | [x] => x
  | x :: xs' => x ++ sep ++ join sep xs'
  end.

(** [xs.includes(x)] on an array of strings. *)
Definition includes (xs : list jsstring) (x : jsstring) : bool :=
  bool_decide (x ∈ xs).

(** ** JavaScript values

    What [response.json()] resolves to is typed [any]; the handler reads
    it with property accesses, optional chaining and [||], so the model
    keeps the dynamic values. *)
#[warnings="-register-all"]
Inductive value : Type :=
| JUndefined
| JNull
| JBool (b : bool)
| JNum (x : float)
| JStr (s : jsstring)
| JArr (xs : list value)
| JObj (fields : list (jsstring * value)).

(** [ToBoolean] *)
Definition truthy (v : value) : bool :=
  match v with
  | JUndefined | JNull => false
  | JBool b => b
  | JNum x => PrimFloat.eqb x x && negb (PrimFloat.eqb x 0)
  | JStr s => negb (bool_decide (s = []))
  | JArr _ | JObj _ => true
  end.

(** [a || b] *)
Definition js_or (a b : value) : value := if truthy a then a else b.

Definition nullish (v : value) : bool :=
  match v with
  | JUndefined | JNull => true
  | _ => false
  end.

(** Own property of an object literal, [undefined] when it has none. *)
Fixpoint own_property (k : jsstring) (fields : list (jsstring * value)) : value :=
  match fields with
  | [] => JUndefined
  | (k', v) :: rest => if bool_decide (k' = k) then v else own_property k rest
  end.

(** The exceptions the handler can meet. *)
Inductive exn : Type :=
| NetworkError               (* [fetch] rejects *)
| HttpError (status : Z)     (* [throw new Error(`HTTP error! status: ...`)] *)
| SyntaxError                (* [response.json()] rejects *)
| TypeError                  (* property read on [undefined] or [null] *)
| QuotaExceededError.        (* [localStorage.setItem] throws *)

(** [v.k] for a property name [k] that no prototype defines (the handler
    reads [choices], [message] and [content]): a [TypeError] on
    [undefined] and [null], the own property of an object, [undefined] on
    every other value. *)
Definition get_prop (v : value) (k : jsstring) : exn + value :=
  match v with
  | JUndefined | JNull => inl TypeError
  | JObj fields => inr (own_property k fields)
  | _ => inr JUndefined
  end.

(** [v[0]] *)
Definition get_index0 (v : value) : exn + value :=
  match v with
  | JUndefined | JNull => inl TypeError
  | JArr xs => inr (default JUndefined (head xs))
  | JStr s => inr (match s with [] => JUndefined | c :: _ => JStr [c] end)
  | JObj fields => inr (own_property (str "0") fields)
  | _ => inr JUndefined
  end.

(** [v?.k] *)
Definition opt_chain (v : value) (k : jsstring) : value :=
  match get_prop v k with
  | inl _ => JUndefined
  | inr x => x
  end.

(** ** The state of the component *)

Record ProjectData : Type := mkProjectData {
  name : jsstring;
  description : jsstring;
  techStack : list jsstring;
  features : list jsstring;
  installation : jsstring;
  usage : jsstring;
  license : jsstring;
  author : jsstring;
  repository : jsstring;
  liveDemo : jsstring;
  apiKey : jsstring
}.

(** The five [useState] cells. *)
Record component : Type := mkComponent {
  projectData : ProjectData;
  generatedReadme : value;
  isGenerating : bool;
  currentTech : jsstring;
  currentFeature : jsstring
}.

(** ** Effects *)

Record toast_msg : Type := mkToast {
  toast_title : jsstring;
  toast_description : jsstring;
  toast_destructive : bool     (* [variant: "destructive"] *)
}.

(** The argument of [fetch]; [req_body] is the object handed to
    [JSON.stringify]. *)
Record request : Type := mkRequest {
  req_url : jsstring;
  req_method : jsstring;
  req_headers : list (jsstring * jsstring);
  req_body : value
}.

Inductive event : Type :=
| EToast (t : toast_msg)
| EStorageSet (key val : jsstring)              (* [localStorage.setItem] *)
| EFetch (req : request)
| EConsoleError (label : jsstring) (e : exn)
| EClipboardWrite (text : value)
| EDownload (parts : list value) (mime filename : jsstring).

Record world : Type := mkWorld {
  ui : component;
  localStorage : gmap jsstring jsstring;
  log : list event                              (* oldest first *)
}.

(** What the endpoint answers to the one request of a call.  [json_body]
    is [None] when the body is not JSON, so that [response.json()]
    rejects. *)
Record response : Type := mkResponse {
  status : Z;
  json_body : option value
}.

Inductive fetch_result : Type :=
| FetchRejected
| FetchResolved (r : response).

(** Whether [localStorage.setItem] returns or throws: the browser throws
    a [QuotaExceededError] when the store is full or storage is
    disabled. *)
Inductive setItem_result : Type :=
| SetItemReturns
| SetItemThrows.

(** What the browser does to one call of [generateReadme]: to its write
    of the credential and to its request. *)
Record environment : Type := mkEnvironment {
  on_setItem : setItem_result;
  on_fetch : fetch_result
}.

(** A network answer alone stands for the call that received it: the
    write of the credential returned and the request was answered. *)
Definition answers (net : fetch_result) : environment :=
  mkEnvironment SetItemReturns net.

Coercion answers : fetch_result >-> environment.

(** [response.ok] *)
Definition ok (r : response) : bool := (200 <=? status r) && (status r <=? 299).

(** ** Handlers as computations

    A handler runs on the world and completes normally or throws. *)
Inductive completion (A : Type) : Type :=
| Normal (a : A)
| Throw (e : exn).
Arguments Normal {A} a.
Arguments Throw {A} e.

Definition M (A : Type) : Type := world → completion A * world.

#[global] Instance M_ret : MRet M := λ A a w, (Normal a, w).

#[global] Instance M_bind : MBind M := λ A B f m w,
  match m w with
  | (Normal a, w') => f a w'
  | (Throw e, w') => (Throw e, w')
  end.

Definition throw {A} (e : exn) : M A := λ w, (Throw e, w).

(** [try { body } catch (error) { handler error } finally { final }] *)
Definition try_catch_finally (body : M ()) (handler : exn → M ()) (final : M ()) : M () :=
  λ w,
    let r := match body w with
             | (Normal a, w') => (Normal a, w')
             | (Throw e, w') => handler e w'
             end in
    match final (r.2) with
    | (Normal _, w'') => (r.1, w'')
    | (Throw e, w'') => (Throw e, w'')
    end.

Definition modify (f : world → world) : M () := λ w, (Normal (), f w).
Definition get_ui : M component := λ w, (Normal (ui w), w).

Definition emit (e : event) : M () :=
  modify (λ w, mkWorld (ui w) (localStorage w) (log w ++ [e])).

Definition set_ui (f : component → component) : M () :=
  modify (λ w, mkWorld (f (ui w)) (localStorage w) (log w)).

Definition toast (t : toast_msg) : M () := emit (EToast t).

Definition console_error (label : jsstring) (e : exn) : M () :=
  emit (EConsoleError label e).

Definition localStorage_setItem (r : setItem_result) (k v : jsstring) : M () :=
  match r with
  | SetItemReturns =>
      modify (λ w, mkWorld (ui w) (<[k := v]> (localStorage w)) (log w ++ [EStorageSet k v]))
  | SetItemThrows => throw QuotaExceededError
  end.

(** [localStorage.getItem(k)]: [null] when the key is not stored. *)
Definition localStorage_getItem (store : gmap jsstring jsstring) (k : jsstring) : value :=
  match store !! k with
  | Some v => JStr v
  | None => JNull
  end.

(** [setX(v)] and [setX(prev => f prev)] of the state cells. *)
Definition setProjectData (f : ProjectData → ProjectData) : M () :=
  set_ui (λ c, mkComponent (f (projectData c)) (generatedReadme c) (isGenerating c)
                           (currentTech c) (currentFeature c)).

Definition setGeneratedReadme (v : value) : M () :=
  set_ui (λ c, mkComponent (projectData c) v (isGenerating c)
                           (currentTech c) (currentFeature c)).

Definition setIsGenerating (b : bool) : M () :=
  set_ui (λ c, mkComponent (projectData c) (generatedReadme c) b
                           (currentTech c) (currentFeature c)).

Definition setCurrentTech (s : jsstring) : M () :=
  set_ui (λ c, mkComponent (projectData c) (generatedReadme c) (isGenerating c)
                           s (currentFeature c)).

Definition setCurrentFeature (s : jsstring) : M () :=
  set_ui (λ c, mkComponent (projectData c) (generatedReadme c) (isGenerating c)
                           (currentTech c) s).

(** [await fetch(url, init)]: logs the request and yields what the
    network answers. *)
Definition fetch (net : fetch_result) (req : request) : M response :=
  emit (EFetch req) ;;
  match net with
  | FetchRejected => throw NetworkError
  | FetchResolved r => mret r
  end.

(** [await response.json()] *)
Definition response_json (r : response) : M value :=
  match json_body r with
  | Some v => mret v
  | None => throw SyntaxError
  end.

Definition lift {A} (r : exn + A) : M A :=
  match r with
  | inl e => throw e
  | inr a => mret a
  end.

(** The world a handler leaves behind. *)
Definition run {A} (m : M A) (w : world) : world := (m w).2.

(** A string is falsy exactly when it is empty. *)
Definition nonempty (s : jsstring) : bool := truthy (JStr s).

(** ** Object spreads [{ ...prev, field: v }] *)

Definition with_name (v : jsstring) (p : ProjectData) : ProjectData :=
  mkProjectData v (description p) (techStack p) (features p) (installation p)
                (usage p) (license p) (author p) (repository p) (liveDemo p) (apiKey p).
Definition with_description (v : jsstring) (p : ProjectData) : ProjectData :=
  mkProjectData (name p) v (techStack p) (features p) (installation p)
                (usage p) (license p) (author p) (repository p) (liveDemo p) (apiKey p).
Definition with_techStack (v : list jsstring) (p : ProjectData) : ProjectData :=
  mkProjectData (name p) (description p) v (features p) (installation p)
                (usage p) (license p) (author p) (repository p) (liveDemo p) (apiKey p).
Definition with_features (v : list jsstring) (p : ProjectData) : ProjectData :=
  mkProjectData (name p) (description p) (techStack p) v (installation p)
                (usage p) (license p) (author p) (repository p) (liveDemo p) (apiKey p).
Definition with_installation (v : jsstring) (p : ProjectData) : ProjectData :=
  mkProjectData (name p) (description p) (techStack p) (features p) v
                (usage p) (license p) (author p) (repository p) (liveDemo p) (apiKey p).
Definition with_usage (v : jsstring) (p : ProjectData) : ProjectData :=
  mkProjectData (name p) (description p) (techStack p) (features p) (installation p)
                v (license p) (author p) (repository p) (liveDemo p) (apiKey p).
Definition with_license (v : jsstring) (p : ProjectData) : ProjectData :=
  mkProjectData (name p) (description p) (techStack p) (features p) (installation p)
                (usage p) v (author p) (repository p) (liveDemo p) (apiKey p).
Definition with_author (v : jsstring) (p : ProjectData) : ProjectData :=
  mkProjectData (name p) (description p) (techStack p) (features p) (installation p)
                (usage p) (license p) v (repository p) (liveDemo p) (apiKey p).
Definition with_repository (v : jsstring) (p : ProjectData) : ProjectData :=
  mkProjectData (name p) (description p) (techStack p) (features p) (installation p)
                (usage p) (license p) (author p) v (liveDemo p) (apiKey p).
Definition with_liveDemo (v : jsstring) (p : ProjectData) : ProjectData :=
  mkProjectData (name p) (description p) (techStack p) (features p) (installation p)
                (usage p) (license p) (author p) (repository p) v (apiKey p).
Definition with_apiKey (v : jsstring) (p : ProjectData) : ProjectData :=
  mkProjectData (name p) (description p) (techStack p) (features p) (installation p)
                (usage p) (license p) (author p) (repository p) (liveDemo p) v.

(** ** The component *)

Definition storage_key : jsstring := str "groq-api-key".

Definition licenses : list jsstring :=
  [str "MIT"; str "Apache-2.0"; str "GPL-3.0"; str "BSD-3-Clause"; str "ISC";
   str "LGPL-2.1"; str "MPL-2.0"; str "AGPL-3.0"; str "Unlicense"; str "Proprietary"].

(** [localStorage.getItem("groq-api-key") || ""] *)
Definition stored_apiKey (store : gmap jsstring jsstring) : jsstring :=
  match js_or (localStorage_getItem store storage_key) (JStr []) with
  | JStr s => s
  | _ => []
  end.

(** The first render: the initial values of the [useState] cells. *)
Definition initial (store : gmap jsstring jsstring) : world :=
  mkWorld
    (mkComponent
       (mkProjectData [] [] [] [] [] [] (str "MIT") [] [] [] (stored_apiKey store))
       (JStr []) false [] [])
    store [].

(** A handler closes over the state of the render it was created in. *)
Definition addTechStack : M () :=
  c ← get_ui;
  let projectData := projectData c in
  let currentTech := currentTech c in
  if nonempty (trim currentTech) && negb (includes (techStack projectData) (trim currentTech))
  then
    setProjectData (λ prev, with_techStack (techStack prev ++ [trim currentTech]) prev) ;;
    setCurrentTech []
  else mret ().

Definition removeTechStack (tech : jsstring) : M () :=
  setProjectData (λ prev,
    with_techStack (filter (λ t, t ≠ tech) (techStack prev)) prev).

Definition addFeature : M () :=
  c ← get_ui;
  let projectData := projectData c in
  let currentFeature := currentFeature c in
  if nonempty (trim currentFeature) && negb (includes (features projectData) (trim currentFeature))
  then
    setProjectData (λ prev, with_features (features prev ++ [trim currentFeature]) prev) ;;
    setCurrentFeature []
  else mret ().

Definition removeFeature (feature : jsstring) : M () :=
  setProjectData (λ prev,
    with_features (filter (λ f, f ≠ feature) (features prev)) prev).

Definition toast_api_key_required : toast_msg :=
  mkToast (str "API Key Required")
          (str "Please enter your Groq API key to generate README") true.

Definition toast_missing_information : toast_msg :=
  mkToast (str "Missing Information")
          (str "Please fill in at least project name and description") true.

Definition toast_readme_generated : toast_msg :=
  mkToast (str "README Generated!")
          (str "Your professional README.md has been created successfully") false.

Definition toast_generation_failed : toast_msg :=
  mkToast (str "Generation Failed")
          (str "Failed to generate README. Please check your API key and try again.") true.

Definition toast_copied : toast_msg :=
  mkToast (str "Copied!") (str "README content copied to clipboard") false.

Definition toast_downloaded : toast_msg :=
  mkToast (str "Downloaded!") (str "README.md file has been downloaded") false.

Definition fallback_readme : jsstring := str "Failed to generate README".

Definition build_prompt (projectData : ProjectData) : jsstring :=
  str "Create a comprehensive, professional README.md file for a project with the following details:

Project Name: " ++ name projectData ++ str "
Description: " ++ description projectData ++ str "
Tech Stack: " ++ join (str ", ") (techStack projectData) ++ str "
Features: " ++ join (str ", ") (features projectData) ++ str "
Installation Instructions: " ++ installation projectData ++ str "
Usage Instructions: " ++ usage projectData ++ str "
License: " ++ license projectData ++ str "
Author: " ++ author projectData ++ str "
Repository: " ++ repository projectData ++ str "
Live Demo: " ++ liveDemo projectData ++ str "

Please create a modern, well-structured README.md with:
- Attractive header with project title and description
- Badges for tech stack and license
- Table of contents
- Features section with emojis
- Installation and usage instructions
- Contributing guidelines
- License information
- Contact information

Make it visually appealing with proper markdown formatting, emojis, and clear sections. Include placeholder images where appropriate.".

Definition system_instruction : jsstring :=
  str "You are a professional technical writer specializing in creating comprehensive README.md files for GitHub repositories. Create detailed, well-formatted README files with proper markdown syntax.".

#[warnings="-inexact-float"]
Definition build_request (projectData : ProjectData) (prompt : jsstring) : request :=
  mkRequest
    (str "https://api.groq.com/openai/v1/chat/completions")
    (str "POST")
    [(str "Authorization", str "Bearer " ++ apiKey projectData);
     (str "Content-Type", str "application/json")]
    (JObj [(str "model", JStr (str "openai/gpt-oss-120b"));
           (str "messages",
            JArr [JObj [(str "role", JStr (str "system"));
                        (str "content", JStr system_instruction)];
                  JObj [(str "role", JStr (str "user"));
                        (str "content", JStr prompt)]]);
           (str "temperature", JNum 0.7);
           (str "max_tokens", JNum 2000)]).

(** [data.choices[0]?.message?.content] *)
Definition first_choice_content (data : value) : exn + value :=
  match get_prop data (str "choices") with
  | inl e => inl e
  | inr choices =>
      match get_index0 choices with
      | inl e => inl e
      | inr choice => inr (opt_chain (opt_chain choice (str "message")) (str "content"))
      end
  end.

(** [generateReadme], run against what the browser does to its write of
    the credential and what the network answers to its request.  The
    flag is set and the credential written before the [try] block, so an
    exception of [setItem] leaves the handler past [catch] and
    [finally].  The [await]s are the only suspension points of the handler;
    what it writes after them ([setGeneratedReadme], [setIsGenerating])
    are absolute values, not updates of the previous state, so the call
    is run to completion in one piece and the order of its effects is
    kept in the log. *)
Definition generateReadme (env : environment) : M () :=
  c ← get_ui;
  let projectData := projectData c in
  if negb (nonempty (apiKey projectData)) then
    toast toast_api_key_required
  else if negb (nonempty (name projectData)) || negb (nonempty (description projectData)) then
    toast toast_missing_information
  else
    setIsGenerating true ;;
    localStorage_setItem (on_setItem env) storage_key (apiKey projectData) ;;
    let prompt := build_prompt projectData in
    try_catch_finally
      (response ← fetch (on_fetch env) (build_request projectData prompt) ;
       (if negb (ok response) then throw (HttpError (status response)) else mret ()) ;;
       data ← response_json response ;
       content ← lift (first_choice_content data) ;
       let readme := js_or content (JStr fallback_readme) in
       setGeneratedReadme readme ;;
       toast toast_readme_generated)
      (λ error,
         console_error (str "Error generating README:") error ;;
         toast toast_generation_failed)
      (setIsGenerating false).

Definition copyToClipboard : M () :=
  c ← get_ui;
  emit (EClipboardWrite (generatedReadme c)) ;;
  toast toast_copied.

(** The blob, its object URL and the click on the anchor are one
    [EDownload] event. *)
Definition downloadReadme : M () :=
  c ← get_ui;
  emit (EDownload [generatedReadme c] (str "text/markdown") (str "README.md")) ;;
  toast toast_downloaded.

(** ** What the render offers

    The Generate button is [disabled={isGenerating}]; the Copy and
    Download buttons are inside [{generatedReadme ? ... : ...}] and exist
    only while the text is truthy. *)
Definition generate_enabled (c : component) : bool := negb (isGenerating c).
Definition export_offered (c : component) : bool := truthy (generatedReadme c).

Definition click_generate (env : environment) : M () :=
  c ← get_ui;
  if generate_enabled c then generateReadme env else mret ().

Definition click_copy : M () :=
  c ← get_ui;
  if export_offered c then copyToClipboard else mret ().

Definition click_download : M () :=
  c ← get_ui;
  if export_offered c then downloadReadme else mret ().

(** The events of the form: the [onChange] of every input, the Add
    buttons and Enter key, a click on a badge, and the three buttons. *)
Inductive action : Type :=
| ChangeApiKey (v : jsstring)
| ChangeName (v : jsstring)
| ChangeDescription (v : jsstring)
| ChangeAuthor (v : jsstring)
| ChangeLicense (v : jsstring)
| ChangeRepository (v : jsstring)
| ChangeLiveDemo (v : jsstring)
| ChangeInstallation (v : jsstring)
| ChangeUsage (v : jsstring)
| ChangeCurrentTech (v : jsstring)
| ChangeCurrentFeature (v : jsstring)
| AddTechStack
| RemoveTechStack (tech : jsstring)
| AddFeature
| RemoveFeature (feature : jsstring)
| ClickGenerate (env : environment)
| ClickCopy
| ClickDownload.

Definition handle (a : action) : M () :=
  match a with
  | ChangeApiKey v => setProjectData (with_apiKey v)
  | ChangeName v => setProjectData (with_name v)
  | ChangeDescription v => setProjectData (with_description v)
  | ChangeAuthor v => setProjectData (with_author v)
  | ChangeLicense v => setProjectData (with_license v)
  | ChangeRepository v => setProjectData (with_repository v)
  | ChangeLiveDemo v => setProjectData (with_liveDemo v)
  | ChangeInstallation v => setProjectData (with_installation v)
  | ChangeUsage v => setProjectData (with_usage v)
  | ChangeCurrentTech v => setCurrentTech v
  | ChangeCurrentFeature v => setCurrentFeature v
  | AddTechStack => addTechStack
  | RemoveTechStack tech => removeTechStack tech
  | AddFeature => addFeature
  | RemoveFeature feature => removeFeature feature
  | ClickGenerate env => click_generate env
  | ClickCopy => click_copy
  | ClickDownload => click_download
  end.

(** The worlds a session can be in: the first render over any stored
    credential, then any sequence of events. *)
Inductive reachable : world → Prop :=
| reachable_initial store : reachable (initial store)
| reachable_step a w : reachable w → reachable (run (handle a) w).

(** ** The vocabulary of the specification

    The specification speaks of a status tag and of error kinds; the
    component has the [isGenerating] flag and tells the user the outcome
    of a call by a toast. *)
Inductive status_tag : Type := idle | generating | ready | failed.

Inductive error_kind : Type := MissingCredential | IncompleteProject | GenerationFailed.

#[global] Instance toast_msg_eq_dec : EqDecision toast_msg.
Proof. solve_decision. Defined.

Definition outcome_of_event (e : event) : option status_tag :=
  match e with
  | EToast t =>
      if bool_decide (t = toast_readme_generated) then Some ready
      else if bool_decide (t = toast_generation_failed) then Some failed
      else None
  | _ => None
  end.

(** [generating] while the flag is set, else what the latest generation
    toast said, [idle] before the first one. *)
Definition status_of (w : world) : status_tag :=
  if isGenerating (ui w) then generating
  else default idle (last (omap outcome_of_event (log w))).

Definition error_of_event (e : event) : option error_kind :=
  match e with
  | EToast t =>
      if bool_decide (t = toast_api_key_required) then Some MissingCredential
      else if bool_decide (t = toast_missing_information) then Some IncompleteProject
      else if bool_decide (t = toast_generation_failed) then Some GenerationFailed
      else None
  | _ => None
  end.

(** The events a handler added to the log of [w] on its way to [w']. *)
Definition emitted (w w' : world) : list event := drop (length (log w)) (log w').

(** The error a call reported, read off the last event it emitted. *)
Definition failure (w w' : world) : option error_kind :=
  last (emitted w w') ≫= error_of_event.

Definition is_fetch (e : event) : bool :=
  match e with EFetch _ => true | _ => false end.

Definition is_storage_set (e : event) : bool :=
  match e with EStorageSet _ _ => true | _ => false end.

Definition is_download (e : event) : bool :=
  match e with EDownload _ _ _ => true | _ => false end.

(** [2xx] *)
Definition is_2xx (s : Z) : Prop := 200 ≤ s ≤ 299.

(** The spec's reading of remove: drop the first exact match. *)
Fixpoint remove_first (x : jsstring) (xs : list jsstring) : list jsstring :=
  match xs with
  | [] => []
  | y :: ys => if bool_decide (y = x) then ys else y :: remove_first x ys
  end.

(** The preconditions of [generateReadme]: the three required fields are
    truthy. *)
Definition preconditions (p : ProjectData) : bool :=
  nonempty (apiKey p) && nonempty (name p) && nonempty (description p).

(** The two worlds a call that passed its preconditions can end in:
    in both the credential is stored, the request is logged and the flag
    is cleared. *)
Definition after_failure (w : world) (e : exn) : world :=
  let p := projectData (ui w) in
  mkWorld
    (mkComponent p (generatedReadme (ui w)) false (currentTech (ui w)) (currentFeature (ui w)))
    (<[storage_key := apiKey p]> (localStorage w))
    (log w ++ [EStorageSet storage_key (apiKey p);
               EFetch (build_request p (build_prompt p));
               EConsoleError (str "Error generating README:") e;
               EToast toast_generation_failed]).

Definition after_success (w : world) (readme : value) : world :=
  let p := projectData (ui w) in
  mkWorld
    (mkComponent p readme false (currentTech (ui w)) (currentFeature (ui w)))
    (<[storage_key := apiKey p]> (localStorage w))
    (log w ++ [EStorageSet storage_key (apiKey p);
               EFetch (build_request p (build_prompt p));
               EToast toast_readme_generated]).

(** What the try block gets out of the answer: the content it read, or
    the exception that takes it to the catch block. *)
Definition answer (net : fetch_result) : exn + value :=
  match net with
  | FetchRejected => inl NetworkError
  | FetchResolved r =>
      if negb (ok r) then inl (HttpError (status r))
      else match json_body r with
           | None => inl SyntaxError
           | Some data => first_choice_content data
           end
  end.

(** ** Sample worlds

    The end-to-end scenario of the specification and variations of it. *)
Definition widget : ProjectData :=
  mkProjectData (str "Widget") (str "A widget.") [str "Go"] [str "Fast"]
                [] [] (str "MIT") [] [] [] (str "k1").

Definition world_of (p : ProjectData) (readme : value) : world :=
  mkWorld (mkComponent p readme false [] []) ∅ [].

Definition widget_world : world := world_of widget (JStr []).

(** A session that already holds a document from an earlier call. *)
Definition widget_world_with_result : world := world_of widget (JStr (str "# Old")).

Definition response_with (s : Z) (data : value) : response := mkResponse s (Some data).


(** The invariant of the two lists: no entry twice, no empty entry. *)
Definition well_formed (l : list jsstring) : Prop := NoDup l ∧ [] ∉ l.

Definition lists_well_formed (w : world) : Prop :=
  well_formed (techStack (projectData (ui w))) ∧ well_formed (features (projectData (ui w))).

(** The world after a sequence of events on a fresh page. *)
Definition session (store : gmap jsstring jsstring) (actions : list action) : world :=
  foldl (λ w a, run (handle a) w) (initial store) actions.

(** Two technologies and one feature entered through the form. *)
Definition entered_lists : world :=
  session ∅ [ChangeCurrentTech (str "Go"); AddTechStack;
             ChangeCurrentTech (str " Rust"); AddTechStack;
             ChangeCurrentFeature (str "Fast"); AddFeature].

(** The widget form with text typed into the two staging inputs. *)
Definition typing_world (tech feature : jsstring) : world :=
  mkWorld (mkComponent widget (JStr []) false tech feature) ∅ [].

(** [{"choices": [{"message": {"content": text}}]}] *)
Definition completion_body (text : value) : value :=
  JObj [(str "choices",
         JArr [JObj [(str "message", JObj [(str "role", JStr (str "assistant"));
                                           (str "content", text)])]])].

(** ** Sessions

    A run of events from any world. *)
Definition run_actions (actions : list action) (w : world) : world :=
  foldl (λ w a, run (handle a) w) w actions.

(** The three buttons; every other event edits the form. *)
Definition is_click (a : action) : bool :=
  match a with
  | ClickGenerate _ | ClickCopy | ClickDownload => true
  | _ => false
  end.

(** The [Select] of the license offers the entries of [licenses] and
    nothing else. *)
Definition offered (a : action) : Prop :=
  match a with
  | ChangeLicense v => v ∈ licenses
  | _ => True
  end.

(** An entry as [trim] leaves it when it is kept: not empty, no
    whitespace at either end. *)
Definition trimmed (x : jsstring) : Prop :=
  x ≠ []
  ∧ (∀ c, head x = Some c → is_whitespace c = false)
  ∧ (∀ c, last x = Some c → is_whitespace c = false).

Definition is_console_error (e : event) : bool :=
  match e with EConsoleError _ _ => true | _ => false end.

Definition is_clipboard_write (e : event) : bool :=
  match e with EClipboardWrite _ => true | _ => false end.

Definition count_events (f : event → bool) (evs : list event) : nat :=
  length (filter (λ e, f e = true) evs).

Definition is_ready_toast (e : event) : bool :=
  match outcome_of_event e with Some ready => true | _ => false end.

Definition is_failed_toast (e : event) : bool :=
  match outcome_of_event e with Some failed => true | _ => false end.

(** The event is not a click on Generate whose write of the credential
    is refused. *)
Definition write_returns (a : action) : Prop :=
  match a with
  | ClickGenerate env => on_setItem env = SetItemReturns
  | _ => True
  end.

(** The storage refuses the write; the request is never reached. *)
Definition storage_refuses : environment := mkEnvironment SetItemThrows FetchRejected.

Definition is_generate (a : action) : bool :=
  match a with ClickGenerate _ => true | _ => false end.

(** The value of a header of a request, if it has one. *)
Fixpoint header (k : jsstring) (hs : list (jsstring * jsstring)) : option jsstring :=
  match hs with
  | [] => None
  | (k', v) :: rest => if bool_decide (k' = k) then Some v else header k rest
  end.

Arguments str : simpl never.
Arguments nonempty : simpl never.
Arguments storage_key : simpl never.
Arguments build_prompt : simpl never.
Arguments build_request : simpl never.
Arguments first_choice_content : simpl never.
Arguments fallback_readme : simpl never.
Arguments toast_api_key_required : simpl never.
Arguments toast_missing_information : simpl never.
Arguments toast_readme_generated : simpl never.
Arguments toast_generation_failed : simpl never.
Arguments toast_copied : simpl never.
Arguments toast_downloaded : simpl never.

(** * Properties *)

(** ** Strings and values *)

Lemma nonempty_false (s : jsstring) : nonempty s = false ↔ s = [].
Proof. unfold nonempty; simpl. case_bool_decide; naive_solver. Qed.

Lemma nonempty_true (s : jsstring) : nonempty s = true ↔ s ≠ [].
Proof. unfold nonempty; simpl. case_bool_decide; naive_solver. Qed.

Lemma preconditions_true (p : ProjectData) :
  preconditions p = true ↔ apiKey p ≠ [] ∧ name p ≠ [] ∧ description p ≠ [].
Proof.
  unfold preconditions. rewrite !andb_true_iff, !nonempty_true. tauto.
Qed.

Lemma js_or_truthy (a b : value) : truthy b = true → truthy (js_or a b) = true.
Proof. unfold js_or. destruct (truthy a) eqn:Ha; auto. Qed.

Lemma truthy_fallback : truthy (JStr fallback_readme) = true.
Proof. reflexivity. Qed.

Lemma emitted_app (w w' : world) (evs : list event) :
  log w' = log w ++ evs → emitted w w' = evs.
Proof. unfold emitted. intros ->. by rewrite drop_app_length. Qed.

(** ** The paths of [generateReadme] *)

Ltac step_handler :=
  unfold mbind, M_bind, mret, M_ret, get_ui, toast, console_error, throw, lift,
    setProjectData, setGeneratedReadme, setIsGenerating, setCurrentTech,
    setCurrentFeature, localStorage_setItem, set_ui, emit, modify;
  cbn.

Lemma generateReadme_no_key (env : environment) (w : world) :
  apiKey (projectData (ui w)) = [] →
  generateReadme env w =
    (Normal (), mkWorld (ui w) (localStorage w) (log w ++ [EToast toast_api_key_required])).
Proof.
  intros Hkey. unfold generateReadme. step_handler. by rewrite Hkey.
Qed.

Lemma generateReadme_incomplete (env : environment) (w : world) :
  apiKey (projectData (ui w)) ≠ [] →
  name (projectData (ui w)) = [] ∨ description (projectData (ui w)) = [] →
  generateReadme env w =
    (Normal (), mkWorld (ui w) (localStorage w) (log w ++ [EToast toast_missing_information])).
Proof.
  intros Hkey Hmissing. unfold generateReadme. step_handler.
  apply nonempty_true in Hkey. rewrite Hkey. cbn.
  destruct Hmissing as [H | H]; apply nonempty_false in H; rewrite H; cbn;
    [done | by rewrite orb_true_r].
Qed.

Lemma generateReadme_not_passed (env : environment) (w : world) :
  preconditions (projectData (ui w)) = false →
  ∃ t, generateReadme env w =
         (Normal (), mkWorld (ui w) (localStorage w) (log w ++ [EToast t])).
Proof.
  intros Hpre. apply not_true_iff_false in Hpre. rewrite preconditions_true in Hpre.
  destruct (decide (apiKey (projectData (ui w)) = [])) as [Hkey | Hkey].
  - eexists. by apply generateReadme_no_key.
  - eexists. apply generateReadme_incomplete; [done |].
    destruct (decide (name (projectData (ui w)) = [])); [by left |].
    destruct (decide (description (projectData (ui w)) = [])); [by right |].
    naive_solver.
Qed.

Lemma environment_cases (env : environment) :
  (∃ net, env = answers net) ∨ on_setItem env = SetItemThrows.
Proof. destruct env as [[|] net]; [left; by exists net | by right]. Qed.

(** The write of the credential throws: the handler is left with the
    flag set, before the request. *)
Lemma generateReadme_refused (env : environment) (w : world) :
  preconditions (projectData (ui w)) = true →
  on_setItem env = SetItemThrows →
  generateReadme env w =
    (Throw QuotaExceededError,
     mkWorld
       (mkComponent (projectData (ui w)) (generatedReadme (ui w)) true
                    (currentTech (ui w)) (currentFeature (ui w)))
       (localStorage w) (log w)).
Proof.
  unfold preconditions. rewrite !andb_true_iff. intros [[Hkey Hname] Hdesc] Hthrows.
  unfold generateReadme. step_handler. rewrite Hkey, Hname, Hdesc. cbn.
  by rewrite Hthrows.
Qed.

Lemma generateReadme_passed (net : fetch_result) (w : world) :
  preconditions (projectData (ui w)) = true →
  generateReadme net w =
    (Normal (),
     match answer net with
     | inl e => after_failure w e
     | inr content => after_success w (js_or content (JStr fallback_readme))
     end).
Proof.
  unfold preconditions. rewrite !andb_true_iff. intros [[Hkey Hname] Hdesc].
  unfold generateReadme, try_catch_finally, fetch, response_json, answer,
    after_failure, after_success.
  step_handler. rewrite Hkey, Hname, Hdesc. cbn.
  destruct net as [| r]; cbn; [by rewrite <- !app_assoc |].
  destruct (ok r); cbn; [| by rewrite <- !app_assoc].
  destruct (json_body r) as [data |]; cbn; [| by rewrite <- !app_assoc].
  destruct (first_choice_content data) as [e | content]; cbn; by rewrite <- !app_assoc.
Qed.

Lemma status_of_snoc_toast (c : component) (store : gmap jsstring jsstring)
    (evs mid : list event) (t : toast_msg) (s : status_tag) :
  isGenerating c = false →
  outcome_of_event (EToast t) = Some s →
  status_of (mkWorld c store (evs ++ mid ++ [EToast t])) = s.
Proof.
  intros Hflag Hs. unfold status_of. cbn [ui log]. rewrite Hflag.
  rewrite app_assoc, omap_app. cbn [omap list_omap]. rewrite Hs.
  by rewrite last_snoc.
Qed.

Lemma outcome_of_event_not_generating (e : event) :
  outcome_of_event e ≠ Some generating.
Proof.
  destruct e as [t | | | | |]; cbn; try done. by repeat case_bool_decide.
Qed.

(** The status is [generating] exactly while the flag is set. *)
Lemma status_of_generating (w : world) :
  status_of w = generating ↔ isGenerating (ui w) = true.
Proof.
  unfold status_of. destruct (isGenerating (ui w)); [done |].
  split; [| done]. intros Hlast.
  destruct (last (omap outcome_of_event (log w))) as [s |] eqn:Hs; [| done].
  cbn in Hlast. subst s.
  apply last_Some_elem_of, list_elem_of_omap in Hs as (e & _ & He).
  by apply outcome_of_event_not_generating in He.
Qed.

Lemma status_of_after_failure (w : world) (e : exn) :
  status_of (after_failure w e) = failed.
Proof.
  unfold after_failure.
  by apply (status_of_snoc_toast _ _ _ [_; _; _] toast_generation_failed).
Qed.

Lemma status_of_after_success (w : world) (readme : value) :
  status_of (after_success w readme) = ready.
Proof.
  unfold after_success.
  by apply (status_of_snoc_toast _ _ _ [_; _] toast_readme_generated).
Qed.

Lemma ok_2xx (r : response) : ok r = true ↔ is_2xx (status r).
Proof. unfold ok, is_2xx. rewrite andb_true_iff, !Z.leb_le. tauto. Qed.

Lemma answer_not_2xx (r : response) :
  ¬ is_2xx (status r) → answer (FetchResolved r) = inl (HttpError (status r)).
Proof.
  intros H. unfold answer. destruct (ok r) eqn:Hok; [| done].
  by apply ok_2xx in Hok.
Qed.

Lemma answer_2xx (r : response) (data : value) :
  is_2xx (status r) → json_body r = Some data →
  answer (FetchResolved r) = first_choice_content data.
Proof.
  intros H%ok_2xx Hbody. unfold answer. by rewrite H, Hbody.
Qed.

(** A call that passed its preconditions ends in [after_failure] or in
    [after_success]. *)
Lemma generateReadme_passed_cases (net : fetch_result) (w : world) :
  preconditions (projectData (ui w)) = true →
  (∃ e, run (generateReadme net) w = after_failure w e)
  ∨ (∃ readme, run (generateReadme net) w = after_success w readme).
Proof.
  intros Hpre. unfold run. rewrite generateReadme_passed by done.
  destruct (answer net); eauto.
Qed.

(** ** Precondition failures *)

(** C1. In every world whose [apiKey] is the empty string, a call of
    [generateReadme] reports [MissingCredential]: the only thing it does
    is show the "API Key Required" toast.  It issues no network request
    and no [localStorage.setItem], the stored credential is what it was,
    and the whole React state (project data, generated text, flag) is
    unchanged. *)
Theorem generate_missing_credential (net : fetch_result) (w : world) :
  apiKey (projectData (ui w)) = [] →
  let w' := run (generateReadme net) w in
  failure w w' = Some MissingCredential
  ∧ emitted w w' = [EToast toast_api_key_required]
  ∧ Forall (λ e, is_fetch e = false ∧ is_storage_set e = false) (emitted w w')
  ∧ localStorage w' = localStorage w
  ∧ projectData (ui w') = projectData (ui w)
  ∧ generatedReadme (ui w') = generatedReadme (ui w)
  ∧ ui w' = ui w.
Proof.
  intros Hkey w'. subst w'. unfold run. rewrite generateReadme_no_key by done.
  cbn [snd ui localStorage].
  assert (Hem : emitted w (mkWorld (ui w) (localStorage w)
                 (log w ++ [EToast toast_api_key_required]))
                = [EToast toast_api_key_required]) by by apply emitted_app.
  unfold failure. rewrite Hem. repeat split; auto.
Qed.

Lemma generate_missing_credential_witness :
  let w := world_of (with_apiKey [] widget) (JStr []) in
  let w' := run (generateReadme FetchRejected) w in
  failure w w' = Some MissingCredential
  ∧ emitted w w' = [EToast toast_api_key_required]
  ∧ Forall (λ e, is_fetch e = false ∧ is_storage_set e = false) (emitted w w')
  ∧ localStorage w' = localStorage w
  ∧ projectData (ui w') = projectData (ui w)
  ∧ generatedReadme (ui w') = generatedReadme (ui w)
  ∧ ui w' = ui w.
Proof.
  apply (generate_missing_credential FetchRejected (world_of (with_apiKey [] widget) (JStr []))).
  reflexivity.
Defined.

(** C2. In every world whose [apiKey] is non-empty while [name] or
    [description] is the empty string, a call of [generateReadme] reports
    [IncompleteProject]: the only thing it does is show the "Missing
    Information" toast.  No network request, no write of the credential,
    and the generated text (with the rest of the React state) is
    unchanged. *)
Theorem generate_incomplete_project (net : fetch_result) (w : world) :
  apiKey (projectData (ui w)) ≠ [] →
  name (projectData (ui w)) = [] ∨ description (projectData (ui w)) = [] →
  let w' := run (generateReadme net) w in
  failure w w' = Some IncompleteProject
  ∧ emitted w w' = [EToast toast_missing_information]
  ∧ Forall (λ e, is_fetch e = false ∧ is_storage_set e = false) (emitted w w')
  ∧ localStorage w' = localStorage w
  ∧ generatedReadme (ui w') = generatedReadme (ui w)
  ∧ ui w' = ui w.
Proof.
  intros Hkey Hmissing w'. subst w'. unfold run.
  rewrite generateReadme_incomplete by done.
  cbn [snd ui localStorage].
  assert (Hem : emitted w (mkWorld (ui w) (localStorage w)
                 (log w ++ [EToast toast_missing_information]))
                = [EToast toast_missing_information]) by by apply emitted_app.
  unfold failure. rewrite Hem. repeat split; auto.
Qed.

Lemma generate_incomplete_project_witness :
  let w := world_of (with_description [] widget) (JStr (str "# Old")) in
  let w' := run (generateReadme FetchRejected) w in
  failure w w' = Some IncompleteProject
  ∧ emitted w w' = [EToast toast_missing_information]
  ∧ Forall (λ e, is_fetch e = false ∧ is_storage_set e = false) (emitted w w')
  ∧ localStorage w' = localStorage w
  ∧ generatedReadme (ui w') = generatedReadme (ui w)
  ∧ ui w' = ui w.
Proof.
  apply (generate_incomplete_project FetchRejected
           (world_of (with_description [] widget) (JStr (str "# Old")))).
  - discriminate.
  - right. reflexivity.
Defined.

(** ** Calls that pass the preconditions *)

Lemma emitted_after_failure (w : world) (e : exn) :
  let p := projectData (ui w) in
  emitted w (after_failure w e) =
    [EStorageSet storage_key (apiKey p); EFetch (build_request p (build_prompt p));
     EConsoleError (str "Error generating README:") e; EToast toast_generation_failed].
Proof. by apply emitted_app. Qed.

Lemma emitted_after_success (w : world) (readme : value) :
  let p := projectData (ui w) in
  emitted w (after_success w readme) =
    [EStorageSet storage_key (apiKey p); EFetch (build_request p (build_prompt p));
     EToast toast_readme_generated].
Proof. by apply emitted_app. Qed.






(** C5. Whatever text the previous calls left in [generatedReadme]: when
    a call passes its preconditions and the request is rejected or
    answered with a status outside 200..299, the status becomes [failed]
    (the "Generation Failed" toast, flag clear), the text is exactly what
    it was before the call, and no second request is made. *)
Theorem generate_failure_keeps_result (net : fetch_result) (w : world) :
  preconditions (projectData (ui w)) = true →
  net = FetchRejected ∨ (∃ r, net = FetchResolved r ∧ ¬ is_2xx (status r)) →
  let w' := run (generateReadme net) w in
  status_of w' = failed
  ∧ failure w w' = Some GenerationFailed
  ∧ generatedReadme (ui w') = generatedReadme (ui w)
  ∧ length (filter (λ e, is_fetch e = true) (emitted w w')) = 1%nat.
Proof.
  intros Hpre Hnet w'.
  assert (∃ e, answer net = inl e) as [e He].
  { destruct Hnet as [-> | (r & -> & Hstatus)]; [by eexists |].
    rewrite answer_not_2xx by done. by eexists. }
  subst w'. unfold run. rewrite generateReadme_passed, He by done. cbn [snd].
  unfold failure. rewrite emitted_after_failure.
  split; [apply status_of_after_failure | done].
Qed.

Lemma generate_failure_keeps_result_witness :
  let w := widget_world_with_result in
  let w' := run (generateReadme (FetchResolved (response_with 401 JNull))) w in
  status_of w' = failed
  ∧ failure w w' = Some GenerationFailed
  ∧ generatedReadme (ui w') = JStr (str "# Old")
  ∧ length (filter (λ e, is_fetch e = true) (emitted w w')) = 1%nat.
Proof.
  apply (generate_failure_keeps_result (FetchResolved (response_with 401 JNull))
           widget_world_with_result).
  - reflexivity.
  - right. eexists. split; [reflexivity |]. unfold is_2xx. simpl. lia.
Defined.

(** ** Reading the answer *)

(** [choices[0]?.message?.content] for the elements of a choices array. *)
Lemma first_choice_content_array (data : value) (choices : list value) :
  get_prop data (str "choices") = inr (JArr choices) →
  first_choice_content data =
    inr (opt_chain (opt_chain (default JUndefined (head choices)) (str "message"))
                   (str "content")).
Proof. intros H. unfold first_choice_content. by rewrite H. Qed.

(** Reading [data.choices[0]] throws exactly when [data] or
    [data.choices] is [undefined] or [null]. *)
Lemma first_choice_content_throws (data : value) :
  (∃ e, first_choice_content data = inl e)
  ↔ nullish data = true
    ∨ (∃ choices, get_prop data (str "choices") = inr choices ∧ nullish choices = true).
Proof.
  unfold first_choice_content. split.
  - intros [e He]. destruct (get_prop data (str "choices")) as [e' | choices] eqn:Hc.
    + left. by destruct data.
    + right. exists choices. split; [done |]. by destruct choices.
  - intros [Hdata | (choices & -> & Hnull)].
    + destruct data; try done; by eexists.
    + destruct choices; try done; by eexists.
Qed.

Lemma generateReadme_2xx (r : response) (data : value) (w : world) :
  preconditions (projectData (ui w)) = true →
  is_2xx (status r) →
  json_body r = Some data →
  run (generateReadme (FetchResolved r)) w =
    match first_choice_content data with
    | inl e => after_failure w e
    | inr content => after_success w (js_or content (JStr fallback_readme))
    end.
Proof.
  intros Hpre Hok Hbody. unfold run.
  by rewrite generateReadme_passed, (answer_2xx r data) by done.
Qed.

(** C6, as stated, fails: a 2xx answer whose JSON body is [{}] has no
    [choices], reading [data.choices[0]] throws, and the call ends
    [failed] with the text still the empty string. *)
Lemma generate_2xx_without_choices_fails :
  let r := response_with 200 (JObj []) in
  let w' := run (generateReadme (FetchResolved r)) widget_world in
  preconditions (projectData (ui widget_world)) = true
  ∧ is_2xx (status r)
  ∧ status_of w' = failed
  ∧ generatedReadme (ui w') = JStr [].
Proof.
  split; [reflexivity |]. split; [by vm_compute |]. split; reflexivity.
Qed.

(** C6, amended. When a call passes its preconditions and the request is
    answered with a 2xx status and a JSON body whose [choices] member is
    there and not [null] (the array of choices of the endpoint), the
    text stored in [generatedReadme] is the [message.content] of
    [choices[0]] whenever that content is truthy, and the fixed string
    "Failed to generate README" whenever it is not, in particular when
    the array is empty or the first choice has no [message] or no
    [content].  The stored value is never [undefined] and never the
    empty string, and the status is [ready] either way. *)
Theorem generate_success_stores_content
    (r : response) (data choices first : value) (w : world) :
  preconditions (projectData (ui w)) = true →
  is_2xx (status r) →
  json_body r = Some data →
  get_prop data (str "choices") = inr choices →
  get_index0 choices = inr first →
  let content := opt_chain (opt_chain first (str "message")) (str "content") in
  let w' := run (generateReadme (FetchResolved r)) w in
  (truthy content = true → generatedReadme (ui w') = content)
  ∧ (content = JUndefined → generatedReadme (ui w') = JStr fallback_readme)
  ∧ (truthy content = false → generatedReadme (ui w') = JStr fallback_readme)
  ∧ generatedReadme (ui w') ≠ JUndefined
  ∧ generatedReadme (ui w') ≠ JStr []
  ∧ status_of w' = ready
  ∧ isGenerating (ui w') = false
  ∧ (∀ xs, choices = JArr xs → first = default JUndefined (head xs)).
Proof.
  intros Hpre Hok Hbody Hchoices Hfirst content w'. subst w'.
  rewrite (generateReadme_2xx r data) by done.
  unfold first_choice_content. rewrite Hchoices, Hfirst.
  fold content. cbn [after_success ui generatedReadme isGenerating].
  assert (Htruthy : truthy (js_or content (JStr fallback_readme)) = true)
    by apply js_or_truthy, truthy_fallback.
  repeat split.
  - intros Hc. unfold js_or. by rewrite Hc.
  - by intros ->.
  - intros Hc. unfold js_or. by rewrite Hc.
  - intros Heq. by rewrite Heq in Htruthy.
  - intros Heq. by rewrite Heq in Htruthy.
  - apply status_of_after_success.
  - intros xs ->. cbn in Hfirst. by injection Hfirst as <-.
Qed.

Lemma generate_success_stores_content_witness :
  let text := JStr (str "# Widget") in
  let w' := run (generateReadme (FetchResolved (response_with 200 (completion_body text))))
                widget_world in
  generatedReadme (ui w') = text ∧ status_of w' = ready ∧ isGenerating (ui w') = false.
Proof.
  destruct (generate_success_stores_content
              (response_with 200 (completion_body (JStr (str "# Widget"))))
              (completion_body (JStr (str "# Widget")))
              (JArr [JObj [(str "message", JObj [(str "role", JStr (str "assistant"));
                                                 (str "content", JStr (str "# Widget"))])]])
              (JObj [(str "message", JObj [(str "role", JStr (str "assistant"));
                                           (str "content", JStr (str "# Widget"))])])
              widget_world)
    as (Hcontent & _ & _ & _ & _ & Hready & Hflag & _).
  - reflexivity.
  - unfold is_2xx. simpl. lia.
  - reflexivity.
  - reflexivity.
  - reflexivity.
  - split; [| by split]. apply Hcontent. reflexivity.
Defined.

(** C10, as stated, fails: a 2xx answer whose body has a [choices]
    member that is a string has no [choices] array at all, yet nothing
    throws ([choices[0]] is a one-character string without [message])
    and the call ends [ready] with the fallback text. *)
Lemma generate_choices_string_ready :
  let data := JObj [(str "choices", JStr (str "abc"))] in
  let w' := run (generateReadme (FetchResolved (response_with 200 data)))
                widget_world_with_result in
  (∀ xs, get_prop data (str "choices") ≠ inr (JArr xs))
  ∧ status_of w' = ready
  ∧ generatedReadme (ui w') = JStr fallback_readme.
Proof. split; [intros xs; discriminate |]. split; reflexivity. Qed.

(** C10, amended. When a call passes its preconditions and the request
    is answered with a 2xx status and a JSON body, the call ends
    [failed], with the earlier text kept, exactly in the cases in which
    reading [data.choices[0]] throws: the body is [null], or it has no
    [choices] member, or that member is [null].  For every other body
    nothing throws; when the [message.content] of [choices[0]] is
    missing (the array is empty, the first choice has no [message] or no
    [content], or [choices] is not an array and has no such element) the
    call ends [ready] with the text "Failed to generate README".  The
    flag is clear in every case. *)
Theorem generate_without_choices (r : response) (data : value) (w : world) :
  preconditions (projectData (ui w)) = true →
  is_2xx (status r) →
  json_body r = Some data →
  let w' := run (generateReadme (FetchResolved r)) w in
  (nullish data = true
   ∨ (∃ choices, get_prop data (str "choices") = inr choices ∧ nullish choices = true)
   → status_of w' = failed
     ∧ failure w w' = Some GenerationFailed
     ∧ generatedReadme (ui w') = generatedReadme (ui w))
  ∧ (∀ choices first,
       get_prop data (str "choices") = inr choices →
       get_index0 choices = inr first →
       status_of w' = ready
       ∧ (opt_chain (opt_chain first (str "message")) (str "content") = JUndefined →
            generatedReadme (ui w') = JStr fallback_readme))
  ∧ (status_of w' = failed
     ↔ nullish data = true
       ∨ (∃ choices, get_prop data (str "choices") = inr choices ∧ nullish choices = true))
  ∧ isGenerating (ui w') = false.
Proof.
  intros Hpre Hok Hbody w'. subst w'.
  rewrite (generateReadme_2xx r data) by done.
  rewrite <- first_choice_content_throws.
  assert (Hfailed : (∃ e, first_choice_content data = inl e) →
            status_of (match first_choice_content data with
                       | inl e => after_failure w e
                       | inr content => after_success w (js_or content (JStr fallback_readme))
                       end) = failed
            ∧ failure w (match first_choice_content data with
                         | inl e => after_failure w e
                         | inr content =>
                             after_success w (js_or content (JStr fallback_readme))
                         end) = Some GenerationFailed
            ∧ generatedReadme
                (ui (match first_choice_content data with
                     | inl e => after_failure w e
                     | inr content => after_success w (js_or content (JStr fallback_readme))
                     end)) = generatedReadme (ui w)).
  { intros [e ->]. unfold failure. rewrite emitted_after_failure.
    split; [apply status_of_after_failure | done]. }
  split; [done |]. split; [| split].
  - intros choices first Hchoices Hfirst.
    unfold first_choice_content. rewrite Hchoices, Hfirst.
    split; [apply status_of_after_success |]. by intros ->.
  - split; [| by intros H; apply Hfailed].
    destruct (first_choice_content data) as [e | content]; [by eexists |].
    by rewrite status_of_after_success.
  - by destruct (first_choice_content data).
Qed.

Lemma generate_without_choices_witness :
  let w := widget_world_with_result in
  let no_choices := JObj [(str "error", JStr (str "overloaded"))] in
  let no_content := JObj [(str "choices", JArr [JObj [(str "index", JNum 0)]])] in
  let w1 := run (generateReadme (FetchResolved (response_with 200 no_choices))) w in
  let w2 := run (generateReadme (FetchResolved (response_with 200 no_content))) w in
  (status_of w1 = failed ∧ generatedReadme (ui w1) = JStr (str "# Old")
   ∧ isGenerating (ui w1) = false)
  ∧ (status_of w2 = ready ∧ generatedReadme (ui w2) = JStr fallback_readme
     ∧ isGenerating (ui w2) = false).
Proof.
  intros w no_choices no_content w1 w2. split.
  - destruct (generate_without_choices (response_with 200 no_choices) no_choices w)
      as (Hfailed & _ & _ & Hflag); [reflexivity | unfold is_2xx; simpl; lia | reflexivity |].
    destruct Hfailed as (Hstatus & _ & Htext).
    + right. exists JUndefined. split; reflexivity.
    + split; [exact Hstatus |]. split; [exact Htext | exact Hflag].
  - destruct (generate_without_choices (response_with 200 no_content) no_content w)
      as (_ & Hready & _ & Hflag); [reflexivity | unfold is_2xx; simpl; lia | reflexivity |].
    destruct (Hready (JArr [JObj [(str "index", JNum 0)]]) (JObj [(str "index", JNum 0)]))
      as [Hstatus Htext]; [reflexivity | reflexivity |].
    split; [exact Hstatus |]. split; [apply Htext; reflexivity | exact Hflag].
Defined.

(** ** Trimming *)

Lemma trimStart_split (s : jsstring) :
  ∃ pre, s = pre ++ trimStart s ∧ Forall (λ c, is_whitespace c = true) pre.
Proof.
  induction s as [| c s (pre & Hs & Hpre)]; [by exists [] |].
  cbn [trimStart]. destruct (is_whitespace c) eqn:Hc.
  - exists (c :: pre). split; [by rewrite Hs at 1 | by constructor].
  - by exists [].
Qed.

Lemma trimStart_head (s : jsstring) (c : code_unit) :
  head (trimStart s) = Some c → is_whitespace c = false.
Proof.
  induction s as [| c' s IH]; [done |].
  cbn [trimStart]. destruct (is_whitespace c') eqn:Hc; [done |].
  cbn. by intros [= <-].
Qed.

Lemma trimEnd_split (s : jsstring) :
  ∃ post, s = trimEnd s ++ post ∧ Forall (λ c, is_whitespace c = true) post.
Proof.
  destruct (trimStart_split (reverse s)) as (pre & Hs & Hpre).
  exists (reverse pre). split; [| by apply Forall_reverse].
  unfold trimEnd. by rewrite <- reverse_app, <- Hs, reverse_involutive.
Qed.

Lemma trimEnd_last (s : jsstring) (c : code_unit) :
  last (trimEnd s) = Some c → is_whitespace c = false.
Proof. unfold trimEnd. rewrite last_reverse. apply trimStart_head. Qed.

(** [trim] strips a run of whitespace at each end and nothing else, and
    what is left neither starts nor ends with whitespace. *)
Lemma trim_spec (s : jsstring) :
  (∃ pre post,
      s = pre ++ trim s ++ post
      ∧ Forall (λ c, is_whitespace c = true) pre
      ∧ Forall (λ c, is_whitespace c = true) post)
  ∧ (∀ c, head (trim s) = Some c → is_whitespace c = false)
  ∧ (∀ c, last (trim s) = Some c → is_whitespace c = false).
Proof.
  destruct (trimStart_split s) as (pre & Hs & Hpre).
  destruct (trimEnd_split (trimStart s)) as (post & Ht & Hpost).
  fold (trim s) in Ht. split; [| split].
  - exists pre, post. by rewrite <- Ht.
  - intros c Hc. apply (trimStart_head s). rewrite Ht.
    destruct (trim s); [done | by cbn in *].
  - apply trimEnd_last.
Qed.

(** ** The tech-stack and feature lists *)

Lemma includes_true (xs : list jsstring) (x : jsstring) : includes xs x = true ↔ x ∈ xs.
Proof. unfold includes. by rewrite bool_decide_eq_true. Qed.

Lemma includes_false (xs : list jsstring) (x : jsstring) : includes xs x = false ↔ x ∉ xs.
Proof. unfold includes. by rewrite bool_decide_eq_false. Qed.

Lemma addTechStack_skip (w : world) :
  trim (currentTech (ui w)) = [] ∨ trim (currentTech (ui w)) ∈ techStack (projectData (ui w)) →
  addTechStack w = (Normal (), w).
Proof.
  intros H. unfold addTechStack. step_handler.
  destruct H as [H%nonempty_false | H%includes_true]; rewrite H; [done |].
  by rewrite andb_false_r.
Qed.

Lemma addTechStack_append (w : world) :
  trim (currentTech (ui w)) ≠ [] →
  trim (currentTech (ui w)) ∉ techStack (projectData (ui w)) →
  addTechStack w =
    (Normal (),
     mkWorld
       (mkComponent
          (with_techStack (techStack (projectData (ui w)) ++ [trim (currentTech (ui w))])
                          (projectData (ui w)))
          (generatedReadme (ui w)) (isGenerating (ui w)) [] (currentFeature (ui w)))
       (localStorage w) (log w)).
Proof.
  intros H1%nonempty_true H2%includes_false. unfold addTechStack. step_handler.
  by rewrite H1, H2.
Qed.

Lemma addFeature_skip (w : world) :
  trim (currentFeature (ui w)) = [] ∨ trim (currentFeature (ui w)) ∈ features (projectData (ui w)) →
  addFeature w = (Normal (), w).
Proof.
  intros H. unfold addFeature. step_handler.
  destruct H as [H%nonempty_false | H%includes_true]; rewrite H; [done |].
  by rewrite andb_false_r.
Qed.

Lemma addFeature_append (w : world) :
  trim (currentFeature (ui w)) ≠ [] →
  trim (currentFeature (ui w)) ∉ features (projectData (ui w)) →
  addFeature w =
    (Normal (),
     mkWorld
       (mkComponent
          (with_features (features (projectData (ui w)) ++ [trim (currentFeature (ui w))])
                         (projectData (ui w)))
          (generatedReadme (ui w)) (isGenerating (ui w)) (currentTech (ui w)) [])
       (localStorage w) (log w)).
Proof.
  intros H1%nonempty_true H2%includes_false. unfold addFeature. step_handler.
  by rewrite H1, H2.
Qed.

(** C7. [addTechStack] and [addFeature] work on the trimmed staging
    text.  When the trimmed token is empty or already an element of the
    respective list (equality of strings), the call changes nothing: the
    list, the staging field and the rest of the world are as before.
    Otherwise the trimmed token becomes the last element of the list, the
    elements that were there keep their positions, the staging field is
    set to the empty string and nothing else changes. *)
Theorem add_entry (w : world) :
  let p := projectData (ui w) in
  let tech := trim (currentTech (ui w)) in
  let feature := trim (currentFeature (ui w)) in
  (tech = [] ∨ tech ∈ techStack p → run addTechStack w = w)
  ∧ (tech ≠ [] → tech ∉ techStack p →
       let w' := run addTechStack w in
       techStack (projectData (ui w')) = techStack p ++ [tech]
       ∧ (∀ i x, techStack p !! i = Some x → techStack (projectData (ui w')) !! i = Some x)
       ∧ currentTech (ui w') = []
       ∧ w' = mkWorld (mkComponent (with_techStack (techStack p ++ [tech]) p)
                         (generatedReadme (ui w)) (isGenerating (ui w)) [] (currentFeature (ui w)))
                      (localStorage w) (log w))
  ∧ (feature = [] ∨ feature ∈ features p → run addFeature w = w)
  ∧ (feature ≠ [] → feature ∉ features p →
       let w' := run addFeature w in
       features (projectData (ui w')) = features p ++ [feature]
       ∧ (∀ i x, features p !! i = Some x → features (projectData (ui w')) !! i = Some x)
       ∧ currentFeature (ui w') = []
       ∧ w' = mkWorld (mkComponent (with_features (features p ++ [feature]) p)
                         (generatedReadme (ui w)) (isGenerating (ui w)) (currentTech (ui w)) [])
                      (localStorage w) (log w)).
Proof.
  intros p tech feature. repeat split.
  - intros H. unfold run. by rewrite addTechStack_skip.
  - unfold run. by rewrite addTechStack_append.
  - intros i x Hx. unfold run. rewrite addTechStack_append by done.
    by apply lookup_app_l_Some.
  - unfold run. by rewrite addTechStack_append.
  - unfold run. by rewrite addTechStack_append.
  - intros H. unfold run. by rewrite addFeature_skip.
  - unfold run. by rewrite addFeature_append.
  - intros i x Hx. unfold run. rewrite addFeature_append by done.
    by apply lookup_app_l_Some.
  - unfold run. by rewrite addFeature_append.
  - unfold run. by rewrite addFeature_append.
Qed.

Lemma add_entry_witness :
  let w1 := typing_world (str "  Rust ") (str " Fast ") in
  let w2 := typing_world (str "   ") (str "Safe") in
  (techStack (projectData (ui (run addTechStack w1))) = [str "Go"; str "Rust"]
   ∧ currentTech (ui (run addTechStack w1)) = [])
  ∧ run addFeature w1 = w1
  ∧ run addTechStack w2 = w2
  ∧ (features (projectData (ui (run addFeature w2))) = [str "Fast"; str "Safe"]
     ∧ currentFeature (ui (run addFeature w2)) = []).
Proof.
  intros w1 w2.
  destruct (add_entry w1) as (_ & Htech1 & Hfeature1 & _).
  destruct (add_entry w2) as (Htech2 & _ & _ & Hfeature2).
  split; [| split; [| split]].
  - destruct Htech1 as (Hlist & _ & Hstaging & _).
    + vm_compute. discriminate.
    + apply includes_false. vm_compute. reflexivity.
    + split; [exact Hlist | exact Hstaging].
  - apply Hfeature1. right. apply includes_true. vm_compute. reflexivity.
  - apply Htech2. left. vm_compute. reflexivity.
  - destruct Hfeature2 as (Hlist & _ & Hstaging & _).
    + vm_compute. discriminate.
    + apply includes_false. vm_compute. reflexivity.
    + split; [exact Hlist | exact Hstaging].
Defined.

(** ** The invariant of the lists *)

Lemma generateReadme_projectData (env : environment) (w : world) :
  projectData (ui (run (generateReadme env) w)) = projectData (ui w).
Proof.
  destruct (preconditions (projectData (ui w))) eqn:Hpre.
  - destruct (environment_cases env) as [[net ->] | Hthrows].
    + by destruct (generateReadme_passed_cases net w Hpre) as [[e ->] | [readme ->]].
    + unfold run. by rewrite generateReadme_refused.
  - unfold run. by destruct (generateReadme_not_passed env w Hpre) as [t ->].
Qed.

Lemma well_formed_snoc (l : list jsstring) (x : jsstring) :
  well_formed l → x ≠ [] → x ∉ l → well_formed (l ++ [x]).
Proof.
  intros [Hdup Hempty] Hx Hfresh. split.
  - apply NoDup_app. split; [done |]. split; [| apply NoDup_singleton].
    intros y Hy ->%list_elem_of_singleton. done.
  - rewrite elem_of_app, list_elem_of_singleton. intros [? | ?]; congruence.
Qed.

Lemma well_formed_filter (l : list jsstring) (x : jsstring) :
  well_formed l → well_formed (filter (λ t, t ≠ x) l).
Proof.
  intros [Hdup Hempty]. split; [by apply NoDup_filter |].
  rewrite list_elem_of_filter. tauto.
Qed.

Lemma handle_lists_well_formed (a : action) (w : world) :
  lists_well_formed w → lists_well_formed (run (handle a) w).
Proof.
  intros [Htech Hfeatures]. unfold lists_well_formed.
  destruct a; cbn [handle]; try (unfold run; step_handler; by split).
  - (* AddTechStack *)
    destruct (decide (trim (currentTech (ui w)) = []
                      ∨ trim (currentTech (ui w)) ∈ techStack (projectData (ui w))))
      as [Hskip | Hadd].
    + unfold run. by rewrite addTechStack_skip.
    + unfold run. rewrite addTechStack_append by naive_solver. cbn.
      split; [| done]. apply well_formed_snoc; naive_solver.
  - (* RemoveTechStack *)
    unfold run, removeTechStack. step_handler.
    split; [by apply well_formed_filter | done].
  - (* AddFeature *)
    destruct (decide (trim (currentFeature (ui w)) = []
                      ∨ trim (currentFeature (ui w)) ∈ features (projectData (ui w))))
      as [Hskip | Hadd].
    + unfold run. by rewrite addFeature_skip.
    + unfold run. rewrite addFeature_append by naive_solver. cbn.
      split; [done |]. apply well_formed_snoc; naive_solver.
  - (* RemoveFeature *)
    unfold run, removeFeature. step_handler.
    split; [done | by apply well_formed_filter].
  - (* ClickGenerate *)
    unfold run, click_generate. step_handler.
    destruct (generate_enabled (ui w)); [| by split].
    fold (run (generateReadme env) w). by rewrite generateReadme_projectData.
  - (* ClickCopy *)
    unfold run, click_copy, copyToClipboard. step_handler.
    by destruct (export_offered (ui w)).
  - (* ClickDownload *)
    unfold run, click_download, downloadReadme. step_handler.
    by destruct (export_offered (ui w)).
Qed.

(** In every world of a session the two lists hold no entry twice and no
    empty entry. *)
Lemma reachable_lists_well_formed (w : world) : reachable w → lists_well_formed w.
Proof.
  induction 1 as [store | a w _ IH].
  - repeat split; cbn; try apply NoDup_nil_2; apply not_elem_of_nil.
  - by apply handle_lists_well_formed.
Qed.

Lemma filter_absent (x : jsstring) (l : list jsstring) :
  x ∉ l → filter (λ t, t ≠ x) l = l.
Proof.
  induction l as [| y l IH]; [done |].
  rewrite not_elem_of_cons. intros [Hne Hl].
  rewrite filter_cons_True by done. by rewrite IH.
Qed.

(** On a list without duplicates, filtering out every match is removing
    the first one. *)
Lemma filter_remove_first (x : jsstring) (l : list jsstring) :
  NoDup l → filter (λ t, t ≠ x) l = remove_first x l.
Proof.
  induction 1 as [| y l Hy Hdup IH]; [done |].
  cbn [remove_first]. case_bool_decide as Heq.
  - subst y. rewrite filter_cons_False by naive_solver. by apply filter_absent.
  - rewrite filter_cons_True by done. by rewrite IH.
Qed.

Lemma remove_first_absent (x : jsstring) (l : list jsstring) :
  x ∉ l → remove_first x l = l.
Proof.
  induction l as [| y l IH]; [done |].
  rewrite not_elem_of_cons. intros [Hne Hl]. cbn.
  rewrite bool_decide_eq_false_2 by done. by rewrite IH.
Qed.

Lemma removeTechStack_run (tech : jsstring) (w : world) :
  run (removeTechStack tech) w =
    mkWorld
      (mkComponent
         (with_techStack (filter (λ t, t ≠ tech) (techStack (projectData (ui w))))
                         (projectData (ui w)))
         (generatedReadme (ui w)) (isGenerating (ui w))
         (currentTech (ui w)) (currentFeature (ui w)))
      (localStorage w) (log w).
Proof. done. Qed.

Lemma removeFeature_run (feature : jsstring) (w : world) :
  run (removeFeature feature) w =
    mkWorld
      (mkComponent
         (with_features (filter (λ f, f ≠ feature) (features (projectData (ui w))))
                        (projectData (ui w)))
         (generatedReadme (ui w)) (isGenerating (ui w))
         (currentTech (ui w)) (currentFeature (ui w)))
      (localStorage w) (log w).
Proof. done. Qed.

(** C8. For every token and every list that holds no entry twice (as
    every list of the form does, [addTechStack] and [addFeature] being
    the only handlers that put entries in), [removeTechStack] and
    [removeFeature] remove the first exact match of the token from their
    list.  In every world, with or without a call pending, every other
    element stays and stays in its relative order, the token is gone
    from the result, and when the token is not in the list the call
    changes nothing.  The handlers are written as a filter that drops
    every match; without duplicates that is the same list. *)
Theorem remove_entry (w : world) (token : jsstring) :
  let p := projectData (ui w) in
  let w1 := run (removeTechStack token) w in
  let w2 := run (removeFeature token) w in
  ((NoDup (techStack p) →
      techStack (projectData (ui w1)) = remove_first token (techStack p))
   ∧ sublist (techStack (projectData (ui w1))) (techStack p)
   ∧ (∀ x, x ≠ token → x ∈ techStack p → x ∈ techStack (projectData (ui w1)))
   ∧ (token ∉ techStack (projectData (ui w1)))
   ∧ (token ∉ techStack p → w1 = w))
  ∧ ((NoDup (features p) →
        features (projectData (ui w2)) = remove_first token (features p))
     ∧ sublist (features (projectData (ui w2))) (features p)
     ∧ (∀ x, x ≠ token → x ∈ features p → x ∈ features (projectData (ui w2)))
     ∧ (token ∉ features (projectData (ui w2)))
     ∧ (token ∉ features p → w2 = w)).
Proof.
  intros p w1 w2.
  subst w1 w2. rewrite removeTechStack_run, removeFeature_run.
  cbn [ui projectData techStack features with_techStack with_features].
  split.
  - split; [by apply filter_remove_first |].
    split; [apply sublist_filter |].
    split; [intros x Hx Hin; by apply list_elem_of_filter |].
    split; [rewrite list_elem_of_filter; tauto |].
    intros Habsent. rewrite filter_absent by done.
    by destruct w as [[[] ? ? ? ?] ? ?].
  - split; [by apply filter_remove_first |].
    split; [apply sublist_filter |].
    split; [intros x Hx Hin; by apply list_elem_of_filter |].
    split; [rewrite list_elem_of_filter; tauto |].
    intros Habsent. rewrite filter_absent by done.
    by destruct w as [[[] ? ? ? ?] ? ?].
Qed.

Lemma reachable_session (store : gmap jsstring jsstring) (actions : list action) :
  reachable (session store actions).
Proof.
  unfold session. induction actions as [| a actions IH] using rev_ind.
  - apply reachable_initial.
  - rewrite foldl_snoc. by apply reachable_step.
Qed.

Lemma remove_entry_witness :
  let w := entered_lists in
  techStack (projectData (ui w)) = [str "Go"; str "Rust"]
  ∧ techStack (projectData (ui (run (removeTechStack (str "Go")) w))) = [str "Rust"]
  ∧ run (removeFeature (str "Go")) w = w.
Proof.
  intros w.
  destruct (remove_entry w (str "Go")) as [(Htech & _) (_ & _ & _ & _ & Hfeature)].
  split; [reflexivity |]. split.
  - rewrite Htech; [reflexivity |].
    apply (bool_decide_unpack _). vm_compute. exact I.
  - apply Hfeature. apply includes_false. vm_compute. reflexivity.
Defined.

(** The handlers drop every match: on a list that holds the token twice
    (no session produces one) both occurrences go. *)
Lemma removeTechStack_drops_every_match :
  let w := world_of (with_techStack [str "Go"; str "Rust"; str "Go"] widget) (JStr []) in
  techStack (projectData (ui (run (removeTechStack (str "Go")) w))) = [str "Rust"]
  ∧ remove_first (str "Go") (techStack (projectData (ui w))) = [str "Rust"; str "Go"].
Proof. split; reflexivity. Qed.

(** ** Export *)

Lemma downloadReadme_run (w : world) :
  run downloadReadme w =
    mkWorld (ui w) (localStorage w)
      (log w ++ [EDownload [generatedReadme (ui w)] (str "text/markdown") (str "README.md");
                 EToast toast_downloaded]).
Proof.
  unfold run, downloadReadme. step_handler. by rewrite <- app_assoc.
Qed.

(** C9, as stated, fails: on the fresh form, where no generation has
    happened and the text is the empty string, [downloadReadme] offers an
    empty [README.md] for download and reports it. *)
Lemma downloadReadme_empty_downloads :
  generatedReadme (ui widget_world) = JStr []
  ∧ emitted widget_world (run downloadReadme widget_world) =
      [EDownload [JStr []] (str "text/markdown") (str "README.md"); EToast toast_downloaded]
  ∧ filter (λ e, is_download e = true) (emitted widget_world (run downloadReadme widget_world)) ≠ []
  ∧ run downloadReadme widget_world ≠ widget_world.
Proof.
  split; [reflexivity |]. split; [reflexivity |]. split; discriminate.
Qed.

(** C9, amended. [downloadReadme] has no guard of its own: in every
    world it offers the current text, empty or not, as [README.md] of
    type [text/markdown] and shows the "Downloaded!" toast.  What keeps
    the empty text from being downloaded is the render: the Download
    button is only there while [generatedReadme] is truthy, so while the
    text is the empty string a click cannot reach the handler and no
    download is produced. *)
Theorem download_gated_by_render (w : world) :
  emitted w (run downloadReadme w) =
    [EDownload [generatedReadme (ui w)] (str "text/markdown") (str "README.md");
     EToast toast_downloaded]
  ∧ (generatedReadme (ui w) = JStr [] →
       export_offered (ui w) = false
       ∧ run click_download w = w
       ∧ filter (λ e, is_download e = true) (emitted w (run click_download w)) = []).
Proof.
  split.
  - apply emitted_app. by rewrite downloadReadme_run.
  - intros Hempty.
    assert (Hoff : export_offered (ui w) = false)
      by (unfold export_offered; by rewrite Hempty).
    assert (Hrun : run click_download w = w).
    { unfold run, click_download. step_handler. by rewrite Hoff. }
    split; [done |]. split; [done |].
    rewrite Hrun. unfold emitted. by rewrite drop_all.
Qed.

Lemma download_gated_by_render_witness :
  export_offered (ui widget_world) = false
  ∧ run click_download widget_world = widget_world
  ∧ filter (λ e, is_download e = true)
           (emitted widget_world (run click_download widget_world)) = [].
Proof.
  apply (download_gated_by_render widget_world). reflexivity.
Defined.

(** ** Scenarios *)

(** The end-to-end scenario: the widget form, a choice with content. *)
Example widget_scenario :
  let text := JStr (str "# Widget
...") in
  let w' := run (generateReadme (FetchResolved (response_with 200 (completion_body text))))
                widget_world in
  status_of w' = ready
  ∧ generatedReadme (ui w') = text
  ∧ localStorage w' !! storage_key = Some (str "k1").
Proof. split; [reflexivity |]. split; [reflexivity |]. apply lookup_insert_eq. Qed.

(** A 2xx answer that is not JSON, or whose JSON is [null], ends in the
    catch block like a missing [choices]. *)
Example unreadable_bodies_fail :
  status_of (run (generateReadme (FetchResolved (mkResponse 200 None))) widget_world) = failed
  ∧ status_of (run (generateReadme (FetchResolved (response_with 200 JNull))) widget_world)
    = failed
  ∧ status_of (run (generateReadme
                      (FetchResolved (response_with 200 (JObj [(str "choices", JNull)]))))
                   widget_world) = failed.
Proof. repeat split. Qed.

(** A [choices] member that is neither an array nor [null] does not
    throw: indexing a number gives [undefined] and the fallback is
    stored. *)
Example choices_not_an_array :
  let w' := run (generateReadme
                   (FetchResolved (response_with 200 (JObj [(str "choices", JNum 5)]))))
                widget_world in
  status_of w' = ready ∧ generatedReadme (ui w') = JStr fallback_readme.
Proof. split; reflexivity. Qed.

(** An empty [content] is falsy and is replaced by the fallback as well. *)
Example empty_content_falls_back :
  let w' := run (generateReadme (FetchResolved (response_with 200 (completion_body (JStr [])))))
                widget_world in
  status_of w' = ready ∧ generatedReadme (ui w') = JStr fallback_readme.
Proof. split; reflexivity. Qed.

(** [trim] strips the no-break space and the line separator too. *)
Example trim_unicode : trim ([160; 8232] ++ str "Go" ++ [9; 12288])%N = str "Go".
Proof. reflexivity. Qed.

Example initial_license : license (projectData (ui (initial ∅))) ∈ licenses.
Proof. apply includes_true. reflexivity. Qed.

(** The credential typed in an earlier session is restored on the first
    render. *)
Example initial_apiKey :
  apiKey (projectData (ui (initial {[ storage_key := str "k1" ]}))) = str "k1"
  ∧ apiKey (projectData (ui (initial ∅))) = [].
Proof. split; reflexivity. Qed.

(** * Sessions *)

(** ** What one event can do *)

Lemma generateReadme_cases (env : environment) (w : world) :
  (preconditions (projectData (ui w)) = false
   ∧ ∃ t, (t = toast_api_key_required ∨ t = toast_missing_information)
          ∧ run (generateReadme env) w =
              mkWorld (ui w) (localStorage w) (log w ++ [EToast t]))
  ∨ (preconditions (projectData (ui w)) = true
     ∧ ∃ e, run (generateReadme env) w = after_failure w e)
  ∨ (preconditions (projectData (ui w)) = true
     ∧ ∃ content, run (generateReadme env) w =
                    after_success w (js_or content (JStr fallback_readme)))
  ∨ (preconditions (projectData (ui w)) = true
     ∧ on_setItem env = SetItemThrows
     ∧ run (generateReadme env) w =
         mkWorld
           (mkComponent (projectData (ui w)) (generatedReadme (ui w)) true
                        (currentTech (ui w)) (currentFeature (ui w)))
           (localStorage w) (log w)).
Proof.
  destruct (preconditions (projectData (ui w))) eqn:Hpre.
  - right. destruct (environment_cases env) as [[net ->] | Hthrows].
    + unfold run. rewrite generateReadme_passed by done.
      destruct (answer net) as [e | content]; [left | right; left]; eauto.
    + right. right. unfold run. by rewrite generateReadme_refused.
  - left. split; [done |]. unfold run.
    apply not_true_iff_false in Hpre. rewrite preconditions_true in Hpre.
    destruct (decide (apiKey (projectData (ui w)) = [])) as [Hkey | Hkey].
    + eexists. split; [by left |]. by rewrite generateReadme_no_key.
    + eexists. split; [by right |]. rewrite generateReadme_incomplete; [done | done |].
      destruct (decide (name (projectData (ui w)) = [])); [by left |].
      destruct (decide (description (projectData (ui w)) = [])); [by right |].
      tauto.
Qed.

Lemma click_generate_run (env : environment) (w : world) :
  run (click_generate env) w =
    if generate_enabled (ui w) then run (generateReadme env) w else w.
Proof.
  unfold run, click_generate. step_handler. by destruct (generate_enabled (ui w)).
Qed.

Lemma copyToClipboard_run (w : world) :
  run copyToClipboard w =
    mkWorld (ui w) (localStorage w)
      (log w ++ [EClipboardWrite (generatedReadme (ui w)); EToast toast_copied]).
Proof.
  unfold run, copyToClipboard. step_handler. by rewrite <- app_assoc.
Qed.

Lemma click_copy_run (w : world) :
  run click_copy w = if export_offered (ui w) then run copyToClipboard w else w.
Proof.
  unfold run, click_copy. step_handler. by destruct (export_offered (ui w)).
Qed.

Lemma click_download_run (w : world) :
  run click_download w = if export_offered (ui w) then run downloadReadme w else w.
Proof.
  unfold run, click_download. step_handler. by destruct (export_offered (ui w)).
Qed.

(** An edit of the form touches neither the log, nor the storage, nor
    the generated text, nor the flag. *)
Lemma handle_edit_frame (a : action) (w : world) :
  is_click a = false →
  log (run (handle a) w) = log w
  ∧ localStorage (run (handle a) w) = localStorage w
  ∧ generatedReadme (ui (run (handle a) w)) = generatedReadme (ui w)
  ∧ isGenerating (ui (run (handle a) w)) = isGenerating (ui w).
Proof.
  intros Hedit. destruct a; try discriminate; cbn [handle]; try done.
  - destruct (decide (trim (currentTech (ui w)) = []
                      ∨ trim (currentTech (ui w)) ∈ techStack (projectData (ui w))))
      as [Hskip | Hadd]; unfold run.
    + by rewrite addTechStack_skip.
    + by rewrite addTechStack_append by tauto.
  - destruct (decide (trim (currentFeature (ui w)) = []
                      ∨ trim (currentFeature (ui w)) ∈ features (projectData (ui w))))
      as [Hskip | Hadd]; unfold run.
    + by rewrite addFeature_skip.
    + by rewrite addFeature_append by tauto.
Qed.

Lemma run_actions_snoc (actions : list action) (a : action) (w : world) :
  run_actions (actions ++ [a]) w = run (handle a) (run_actions actions w).
Proof. unfold run_actions. by rewrite foldl_snoc. Qed.

Lemma session_run_actions (store : gmap jsstring jsstring) (actions : list action) :
  session store actions = run_actions actions (initial store).
Proof. done. Qed.

Lemma reachable_run_actions (actions : list action) (w : world) :
  reachable w → reachable (run_actions actions w).
Proof.
  intros Hw. induction actions as [| a actions IH] using rev_ind; [done |].
  rewrite run_actions_snoc. by apply reachable_step.
Qed.

(** X13. No sequence of form edits (typing into any input, picking a
    license, adding or removing entries) has an effect outside the form:
    nothing is logged (no toast, no request, no console output), the
    storage is not written, and the generated text and the flag stay as
    they are.  Effects come from the three buttons only. *)
Theorem edits_are_silent (actions : list action) (w : world) :
  Forall (λ a, is_click a = false) actions →
  let w' := run_actions actions w in
  log w' = log w
  ∧ localStorage w' = localStorage w
  ∧ generatedReadme (ui w') = generatedReadme (ui w)
  ∧ isGenerating (ui w') = isGenerating (ui w).
Proof.
  induction actions as [| a actions IH] using rev_ind; [done |].
  rewrite Forall_app, Forall_singleton. intros [Hactions Ha].
  cbn zeta. rewrite run_actions_snoc.
  destruct (handle_edit_frame a (run_actions actions w) Ha) as (-> & -> & -> & ->).
  by apply IH.
Qed.

Lemma edits_are_silent_witness :
  let actions := [ChangeApiKey (str "k2"); ChangeName (str "Gadget");
                  ChangeCurrentTech (str "Rust"); AddTechStack; RemoveTechStack (str "Go");
                  ChangeLicense (str "ISC")] in
  let w' := run_actions actions widget_world_with_result in
  log w' = [] ∧ localStorage w' = ∅
  ∧ generatedReadme (ui w') = JStr (str "# Old") ∧ isGenerating (ui w') = false.
Proof.
  refine (edits_are_silent _ widget_world_with_result _).
  repeat constructor.
Defined.

(** ** The entries of the lists *)

Lemma trim_trimmed (s : jsstring) : trim s ≠ [] → trimmed (trim s).
Proof.
  intros Hne. destruct (trim_spec s) as (_ & Hhead & Hlast). by split.
Qed.

Lemma Forall_trimmed_filter (x : jsstring) (l : list jsstring) :
  Forall trimmed l → Forall trimmed (filter (λ t, t ≠ x) l).
Proof.
  rewrite !Forall_forall. intros Hl y [_ Hy]%list_elem_of_filter. by apply Hl.
Qed.

Lemma handle_entries_trimmed (a : action) (w : world) :
  Forall trimmed (techStack (projectData (ui w))) ∧ Forall trimmed (features (projectData (ui w))) →
  Forall trimmed (techStack (projectData (ui (run (handle a) w))))
  ∧ Forall trimmed (features (projectData (ui (run (handle a) w)))).
Proof.
  intros [Htech Hfeatures].
  destruct a; cbn [handle]; try done.
  - destruct (decide (trim (currentTech (ui w)) = []
                      ∨ trim (currentTech (ui w)) ∈ techStack (projectData (ui w))))
      as [Hskip | Hadd]; unfold run.
    + by rewrite addTechStack_skip.
    + rewrite addTechStack_append by tauto. cbn. split; [| done].
      apply Forall_app. split; [done |]. apply Forall_singleton, trim_trimmed. tauto.
  - rewrite removeTechStack_run. cbn. split; [by apply Forall_trimmed_filter | done].
  - destruct (decide (trim (currentFeature (ui w)) = []
                      ∨ trim (currentFeature (ui w)) ∈ features (projectData (ui w))))
      as [Hskip | Hadd]; unfold run.
    + by rewrite addFeature_skip.
    + rewrite addFeature_append by tauto. cbn. split; [done |].
      apply Forall_app. split; [done |]. apply Forall_singleton, trim_trimmed. tauto.
  - rewrite removeFeature_run. cbn. split; [done | by apply Forall_trimmed_filter].
  - rewrite click_generate_run. destruct (generate_enabled (ui w)); [| done].
    by rewrite generateReadme_projectData.
  - rewrite click_copy_run, copyToClipboard_run. by destruct (export_offered (ui w)).
  - rewrite click_download_run, downloadReadme_run. by destruct (export_offered (ui w)).
Qed.

(** X1. Whatever is typed and clicked in a session, the tech-stack and
    the feature list never hold an entry twice, and every entry is a
    trimmed token: not the empty string, and with no whitespace at its
    start or its end. *)
Theorem session_entries (w : world) :
  reachable w →
  let p := projectData (ui w) in
  NoDup (techStack p) ∧ NoDup (features p)
  ∧ Forall trimmed (techStack p) ∧ Forall trimmed (features p).
Proof.
  intros Hw p. subst p.
  destruct (reachable_lists_well_formed w Hw) as [[Hdup1 _] [Hdup2 _]].
  split; [done |]. split; [done |]. clear Hdup1 Hdup2.
  induction Hw as [store | a w _ IH]; [by split |].
  by apply handle_entries_trimmed.
Qed.

Lemma session_entries_witness :
  let p := projectData (ui entered_lists) in
  NoDup (techStack p) ∧ NoDup (features p)
  ∧ Forall trimmed (techStack p) ∧ Forall trimmed (features p).
Proof.
  apply (session_entries entered_lists). apply reachable_session.
Defined.

(** ** Adding and removing *)

Lemma filter_snoc_absent (x : jsstring) (l : list jsstring) :
  x ∉ l → filter (λ t, t ≠ x) (l ++ [x]) = l.
Proof.
  intros Hx. rewrite filter_app, filter_absent by done.
  rewrite filter_cons_False by tauto. apply app_nil_r.
Qed.

(** X2. Adding a token that is not yet in the list and then removing it
    (a click on its badge passes the entry as stored, that is trimmed)
    gives back the list exactly as it was, in the same order.  This
    holds for the tech stack and for the features. *)
Theorem add_then_remove (w : world) :
  let p := projectData (ui w) in
  let tech := trim (currentTech (ui w)) in
  let feature := trim (currentFeature (ui w)) in
  (tech ∉ techStack p →
     techStack (projectData (ui (run (removeTechStack tech) (run addTechStack w))))
       = techStack p)
  ∧ (feature ∉ features p →
       features (projectData (ui (run (removeFeature feature) (run addFeature w))))
         = features p).
Proof.
  intros p tech feature. split; intros Hfresh.
  - rewrite removeTechStack_run. cbn [ui projectData techStack with_techStack].
    destruct (decide (tech = [])) as [Hempty | Hne].
    + unfold run at 1. rewrite addTechStack_skip by by left.
      by apply filter_absent.
    + unfold run at 1. rewrite addTechStack_append by done.
      by apply filter_snoc_absent.
  - rewrite removeFeature_run. cbn [ui projectData features with_features].
    destruct (decide (feature = [])) as [Hempty | Hne].
    + unfold run at 1. rewrite addFeature_skip by by left.
      by apply filter_absent.
    + unfold run at 1. rewrite addFeature_append by done.
      by apply filter_snoc_absent.
Qed.

Lemma add_then_remove_witness :
  let w := typing_world (str " Rust ") (str "Safe") in
  techStack (projectData (ui (run (removeTechStack (str "Rust")) (run addTechStack w))))
    = [str "Go"]
  ∧ features (projectData (ui (run (removeFeature (str "Safe")) (run addFeature w))))
    = [str "Fast"].
Proof.
  intros w. destruct (add_then_remove w) as [Htech Hfeature]. split.
  - apply Htech. apply includes_false. vm_compute. reflexivity.
  - apply Hfeature. apply includes_false. vm_compute. reflexivity.
Defined.

Lemma setCurrentTech_run (s : jsstring) (w : world) :
  run (setCurrentTech s) w =
    mkWorld (mkComponent (projectData (ui w)) (generatedReadme (ui w)) (isGenerating (ui w))
                         s (currentFeature (ui w)))
            (localStorage w) (log w).
Proof. done. Qed.

Lemma setCurrentFeature_run (s : jsstring) (w : world) :
  run (setCurrentFeature s) w =
    mkWorld (mkComponent (projectData (ui w)) (generatedReadme (ui w)) (isGenerating (ui w))
                         (currentTech (ui w)) s)
            (localStorage w) (log w).
Proof. done. Qed.

Lemma addTechStack_then_present (w : world) :
  let tech := trim (currentTech (ui w)) in
  tech = [] ∨ tech ∈ techStack (projectData (ui (run addTechStack w))).
Proof.
  intros tech.
  destruct (decide (tech = [] ∨ tech ∈ techStack (projectData (ui w)))) as [Hskip | Hadd].
  - unfold run. by rewrite addTechStack_skip.
  - right. unfold run. rewrite addTechStack_append by tauto. cbn.
    apply elem_of_app. right. by apply list_elem_of_singleton.
Qed.

Lemma addFeature_then_present (w : world) :
  let feature := trim (currentFeature (ui w)) in
  feature = [] ∨ feature ∈ features (projectData (ui (run addFeature w))).
Proof.
  intros feature.
  destruct (decide (feature = [] ∨ feature ∈ features (projectData (ui w)))) as [Hskip | Hadd].
  - unfold run. by rewrite addFeature_skip.
  - right. unfold run. rewrite addFeature_append by tauto. cbn.
    apply elem_of_app. right. by apply list_elem_of_singleton.
Qed.

(** X3. Two texts that differ only in the whitespace around them are
    the same token: once the first has been typed and added, typing and
    adding the second changes neither list. *)
Theorem add_whitespace_variant (s s' : jsstring) (w : world) :
  trim s = trim s' →
  let w1 := run addTechStack (run (setCurrentTech s) w) in
  let w2 := run addFeature (run (setCurrentFeature s) w) in
  techStack (projectData (ui (run addTechStack (run (setCurrentTech s') w1))))
    = techStack (projectData (ui w1))
  ∧ features (projectData (ui (run addFeature (run (setCurrentFeature s') w2))))
    = features (projectData (ui w2)).
Proof.
  intros Heq w1 w2. split.
  - pose proof (addTechStack_then_present (run (setCurrentTech s) w)) as Hpresent.
    cbn zeta in Hpresent. fold w1 in Hpresent.
    rewrite setCurrentTech_run in Hpresent at 1. cbn [ui currentTech] in Hpresent.
    unfold run at 1. rewrite addTechStack_skip; [done |].
    rewrite setCurrentTech_run. cbn [ui currentTech projectData]. by rewrite <- Heq.
  - pose proof (addFeature_then_present (run (setCurrentFeature s) w)) as Hpresent.
    cbn zeta in Hpresent. fold w2 in Hpresent.
    rewrite setCurrentFeature_run in Hpresent at 1. cbn [ui currentFeature] in Hpresent.
    unfold run at 1. rewrite addFeature_skip; [done |].
    rewrite setCurrentFeature_run. cbn [ui currentFeature projectData]. by rewrite <- Heq.
Qed.

Lemma add_whitespace_variant_witness :
  let w1 := run addTechStack (run (setCurrentTech (str "Rust")) widget_world) in
  let w2 := run addFeature (run (setCurrentFeature (str "Rust")) widget_world) in
  techStack (projectData (ui (run addTechStack (run (setCurrentTech (str "  Rust ")) w1))))
    = techStack (projectData (ui w1))
  ∧ features (projectData (ui (run addFeature (run (setCurrentFeature (str "  Rust ")) w2))))
    = features (projectData (ui w2)).
Proof.
  apply (add_whitespace_variant (str "Rust") (str "  Rust ") widget_world).
  vm_compute. reflexivity.
Defined.

(** ** Copy *)

(** X4. [copyToClipboard] has no guard of its own: in every world it
    writes the current text, empty or not, to the clipboard and shows
    the "Copied!" toast, and it changes neither the form nor the
    storage.  Through the Copy button it can only run while the text is
    truthy: while it is not, the button is not rendered and a click does
    nothing. *)
Theorem copy_writes_current_text (w : world) :
  let w' := run copyToClipboard w in
  emitted w w' = [EClipboardWrite (generatedReadme (ui w)); EToast toast_copied]
  ∧ ui w' = ui w
  ∧ localStorage w' = localStorage w
  ∧ (truthy (generatedReadme (ui w)) = true → run click_copy w = w')
  ∧ (truthy (generatedReadme (ui w)) = false → run click_copy w = w).
Proof.
  cbn zeta. rewrite copyToClipboard_run, click_copy_run. unfold export_offered.
  split; [by apply emitted_app |]. split; [done |]. split; [done |].
  split; intros ->; [apply copyToClipboard_run | done].
Qed.

Lemma copy_writes_current_text_witness :
  run click_copy widget_world_with_result = run copyToClipboard widget_world_with_result
  ∧ run click_copy widget_world = widget_world.
Proof.
  split.
  - apply (copy_writes_current_text widget_world_with_result). reflexivity.
  - apply (copy_writes_current_text widget_world). reflexivity.
Defined.

(** ** When the generated text is there *)

Lemma ready_toast_elem_of_app (l evs : list event) :
  Forall (λ e, is_ready_toast e = false) evs →
  EToast toast_readme_generated ∈ l ++ evs ↔ EToast toast_readme_generated ∈ l.
Proof.
  intros Hevs. rewrite elem_of_app. split; [| by left].
  intros [Hl | Hin]; [done |].
  rewrite Forall_forall in Hevs. by apply Hevs in Hin.
Qed.

Lemma handle_text_truthy (a : action) (w : world) :
  (truthy (generatedReadme (ui w)) = true ↔ EToast toast_readme_generated ∈ log w)
  ∧ (truthy (generatedReadme (ui w)) = false → generatedReadme (ui w) = JStr []) →
  (truthy (generatedReadme (ui (run (handle a) w))) = true
   ↔ EToast toast_readme_generated ∈ log (run (handle a) w))
  ∧ (truthy (generatedReadme (ui (run (handle a) w))) = false
     → generatedReadme (ui (run (handle a) w)) = JStr []).
Proof.
  intros [Hw Hempty]. destruct (is_click a) eqn:Hclick.
  - destruct a; try discriminate; cbn [handle].
    + rewrite click_generate_run. destruct (generate_enabled (ui w)); [| done].
      destruct (generateReadme_cases env w)
        as [(_ & t & Ht & ->) | [(_ & e & ->) | [(_ & content & ->) | (_ & _ & ->)]]].
      * cbn [ui log]. split; [| done]. rewrite ready_toast_elem_of_app; [done |].
        apply Forall_singleton. by destruct Ht as [-> | ->].
      * unfold after_failure. cbn [ui log generatedReadme]. split; [| done].
        rewrite ready_toast_elem_of_app; [done |]. by repeat constructor.
      * unfold after_success. cbn [ui log generatedReadme].
        rewrite js_or_truthy by apply truthy_fallback. split; [| done].
        split; [| done]. intros _.
        apply elem_of_app. right. apply list_elem_of_In. cbn. tauto.
      * done.
    + rewrite click_copy_run. unfold export_offered.
      destruct (truthy (generatedReadme (ui w))) eqn:Hoff; [| by rewrite Hoff].
      rewrite copyToClipboard_run. cbn [ui log]. rewrite Hoff. split; [| done].
      rewrite ready_toast_elem_of_app; [done |]. by repeat constructor.
    + rewrite click_download_run. unfold export_offered.
      destruct (truthy (generatedReadme (ui w))) eqn:Hoff; [| by rewrite Hoff].
      rewrite downloadReadme_run. cbn [ui log]. rewrite Hoff. split; [| done].
      rewrite ready_toast_elem_of_app; [done |]. by repeat constructor.
  - destruct (handle_edit_frame a w Hclick) as (Hlog & _ & Htext & _).
    by rewrite Hlog, Htext.
Qed.

Lemma handle_log_grows (a : action) (w : world) :
  ∃ evs, log (run (handle a) w) = log w ++ evs.
Proof.
  destruct (is_click a) eqn:Hclick.
  - destruct a; try discriminate; cbn [handle].
    + rewrite click_generate_run.
      destruct (generate_enabled (ui w)); [| exists []; by rewrite app_nil_r].
      destruct (generateReadme_cases env w)
        as [(_ & t & _ & ->) | [(_ & e & ->) | [(_ & content & ->) | (_ & _ & ->)]]];
        [by eexists | by eexists | by eexists | exists []; by rewrite app_nil_r].
    + rewrite click_copy_run, copyToClipboard_run.
      destruct (export_offered (ui w)); [by eexists | exists []; by rewrite app_nil_r].
    + rewrite click_download_run, downloadReadme_run.
      destruct (export_offered (ui w)); [by eexists | exists []; by rewrite app_nil_r].
  - destruct (handle_edit_frame a w Hclick) as (-> & _). exists []. by rewrite app_nil_r.
Qed.

(** X5. In every world of a session the generated text is truthy (the
    test [generatedReadme ? ... : ...] of the view holds) exactly when
    some call of the session has succeeded, that is when its "README
    Generated!" toast is in the log.  Until then the text is the empty
    string it started as, and once it is truthy it stays truthy after
    every further event, whatever it is: a later failed call, a refused
    write of the credential, an edit, an export. *)
Theorem generated_text_truthy_iff_success (w : world) :
  reachable w →
  (truthy (generatedReadme (ui w)) = true ↔ EToast toast_readme_generated ∈ log w)
  ∧ (truthy (generatedReadme (ui w)) = false → generatedReadme (ui w) = JStr [])
  ∧ (∀ a, truthy (generatedReadme (ui w)) = true
          → truthy (generatedReadme (ui (run (handle a) w))) = true).
Proof.
  intros Hw.
  assert (Hinv : (truthy (generatedReadme (ui w)) = true
                  ↔ EToast toast_readme_generated ∈ log w)
                 ∧ (truthy (generatedReadme (ui w)) = false
                    → generatedReadme (ui w) = JStr [])).
  { induction Hw as [store | a w _ IH]; [| by apply handle_text_truthy].
    cbn. split; [| done]. split; [done |]. by intros ?%not_elem_of_nil. }
  destruct Hinv as [Hiff Hempty].
  split; [done |]. split; [done |]. intros a Htruthy.
  apply (handle_text_truthy a w (conj Hiff Hempty)).
  destruct (handle_log_grows a w) as [evs ->].
  apply elem_of_app. left. by apply Hiff.
Qed.

Lemma generated_text_truthy_iff_success_witness :
  let w := session ∅ [ChangeApiKey (str "k1"); ChangeName (str "Widget");
                      ChangeDescription (str "A widget.");
                      ClickGenerate (FetchResolved (response_with 200
                                       (completion_body (JStr (str "# Widget")))))] in
  (truthy (generatedReadme (ui w)) = true ↔ EToast toast_readme_generated ∈ log w)
  ∧ (truthy (generatedReadme (ui w)) = false → generatedReadme (ui w) = JStr [])
  ∧ (∀ a, truthy (generatedReadme (ui w)) = true
          → truthy (generatedReadme (ui (run (handle a) w))) = true).
Proof.
  intros w. apply (generated_text_truthy_iff_success w). apply reachable_session.
Defined.

(** ** The outcome of a call *)





(** X7. The user cannot tell one failure from another: two calls from
    the same world that both end [failed] (a rejected request, a 401, a
    500, a body that cannot be read) leave the same form and the same
    storage and show the same toasts; they differ in the console output
    only. *)
Theorem failures_look_alike (net1 net2 : fetch_result) (w : world) :
  let w1 := run (generateReadme net1) w in
  let w2 := run (generateReadme net2) w in
  preconditions (projectData (ui w)) = true →
  status_of w1 = failed →
  status_of w2 = failed →
  ui w1 = ui w2
  ∧ localStorage w1 = localStorage w2
  ∧ filter (λ e, is_console_error e = false) (log w1)
    = filter (λ e, is_console_error e = false) (log w2).
Proof.
  intros w1 w2 Hpre. subst w1 w2. unfold run.
  rewrite !generateReadme_passed by done. cbn [snd].
  destruct (answer net1) as [e1 | c1]; [| by rewrite status_of_after_success].
  destruct (answer net2) as [e2 | c2]; [| by rewrite status_of_after_success].
  intros _ _. split; [done |]. split; [done |].
  unfold after_failure. cbn [log]. by rewrite !filter_app.
Qed.

Lemma failures_look_alike_witness :
  let w1 := run (generateReadme FetchRejected) widget_world in
  let w2 := run (generateReadme (FetchResolved (response_with 401 JNull))) widget_world in
  ui w1 = ui w2
  ∧ localStorage w1 = localStorage w2
  ∧ filter (λ e, is_console_error e = false) (log w1)
    = filter (λ e, is_console_error e = false) (log w2).
Proof.
  apply (failures_look_alike FetchRejected (FetchResolved (response_with 401 JNull))
           widget_world); reflexivity.
Defined.

(** ** Calling again *)



(** ** The stored credential *)

Lemma stored_apiKey_insert (k : jsstring) (store : gmap jsstring jsstring) :
  stored_apiKey (<[storage_key := k]> store) = k.
Proof.
  unfold stored_apiKey, localStorage_getItem. rewrite lookup_insert_eq.
  unfold js_or. destruct (truthy (JStr k)) eqn:Hk; [done |].
  symmetry. by apply nonempty_false.
Qed.

(** X8. The credential survives a reload: after a call that passed its
    preconditions, whatever the network answered, a fresh page over the
    storage the call left starts with the [apiKey] the call was made
    with, so its credential check passes again. *)
Theorem credential_round_trip (net : fetch_result) (w : world) :
  preconditions (projectData (ui w)) = true →
  let reloaded := initial (localStorage (run (generateReadme net) w)) in
  apiKey (projectData (ui reloaded)) = apiKey (projectData (ui w))
  ∧ nonempty (apiKey (projectData (ui reloaded))) = true.
Proof.
  intros Hpre reloaded. subst reloaded.
  assert (Hkey : apiKey (projectData (ui (initial (localStorage (run (generateReadme net) w)))))
                 = apiKey (projectData (ui w))).
  { destruct (generateReadme_passed_cases net w Hpre) as [[e ->] | [r ->]];
      apply stored_apiKey_insert. }
  split; [done |]. rewrite Hkey.
  apply preconditions_true in Hpre as (Hnonempty & _). by apply nonempty_true.
Qed.

Lemma credential_round_trip_witness :
  let reloaded := initial (localStorage (run (generateReadme FetchRejected) widget_world)) in
  apiKey (projectData (ui reloaded)) = str "k1"
  ∧ nonempty (apiKey (projectData (ui reloaded))) = true.
Proof.
  apply (credential_round_trip FetchRejected widget_world). reflexivity.
Defined.

Lemma handle_storage (a : action) (w : world) :
  localStorage (run (handle a) w) = localStorage w
  ∨ ∃ v, v ≠ [] ∧ localStorage (run (handle a) w) = <[storage_key := v]> (localStorage w).
Proof.
  destruct (is_click a) eqn:Hclick.
  - destruct a; try discriminate; cbn [handle].
    + rewrite click_generate_run. destruct (generate_enabled (ui w)); [| by left].
      destruct (generateReadme_cases env w)
        as [(_ & t & _ & ->) | [(Hpre & e & ->) | [(Hpre & content & ->) | (_ & _ & ->)]]];
        [by left | right | right | by left];
        apply preconditions_true in Hpre as (Hkey & _); by eexists.
    + rewrite click_copy_run, copyToClipboard_run. left. by destruct (export_offered (ui w)).
    + rewrite click_download_run, downloadReadme_run. left.
      by destruct (export_offered (ui w)).
  - left. by destruct (handle_edit_frame a w Hclick) as (_ & -> & _).
Qed.

(** X9. A session writes the storage under the one fixed key only:
    every other entry is what it was when the page was opened.  Under
    that key the storage either still is what it was or holds a
    non-empty credential; the component never stores an empty one and
    never removes the entry. *)
Theorem session_storage (store : gmap jsstring jsstring) (actions : list action) :
  let w := session store actions in
  (∀ k, k ≠ storage_key → localStorage w !! k = store !! k)
  ∧ (localStorage w = store
     ∨ ∃ v, v ≠ [] ∧ localStorage w !! storage_key = Some v).
Proof.
  cbn zeta. rewrite session_run_actions.
  induction actions as [| a actions [IHother IHkey]] using rev_ind; [by split; [| left] |].
  rewrite run_actions_snoc.
  destruct (handle_storage a (run_actions actions (initial store))) as [-> | (v & Hv & ->)];
    [done |].
  split.
  - intros k Hk. rewrite lookup_insert_ne by done. by apply IHother.
  - right. exists v. split; [done |]. apply lookup_insert_eq.
Qed.

(** ** Requests and what the user is told *)

Lemma count_events_app (f : event → bool) (l1 l2 : list event) :
  count_events f (l1 ++ l2) = (count_events f l1 + count_events f l2)%nat.
Proof. unfold count_events. by rewrite filter_app, length_app. Qed.

Lemma handle_accounting (a : action) (w : world) :
  ∃ evs, log (run (handle a) w) = log w ++ evs
         ∧ count_events is_fetch evs = count_events is_storage_set evs
         ∧ count_events is_fetch evs
           = (count_events is_ready_toast evs + count_events is_failed_toast evs)%nat
         ∧ (count_events is_fetch evs ≤ if is_generate a then 1 else 0)%nat.
Proof.
  assert (Hnone : ∀ b : bool, log w = log w ++ []
            ∧ count_events is_fetch [] = count_events is_storage_set []
            ∧ count_events is_fetch []
              = (count_events is_ready_toast [] + count_events is_failed_toast [])%nat
            ∧ (count_events is_fetch [] ≤ if b then 1 else 0)%nat).
  { intros b. rewrite app_nil_r. repeat split. cbn. lia. }
  destruct (is_click a) eqn:Hclick.
  - destruct a; try discriminate; cbn [handle is_generate].
    + rewrite click_generate_run.
      destruct (generate_enabled (ui w)); [| exists []; apply (Hnone true)].
      destruct (generateReadme_cases env w)
        as [(_ & t & Ht & ->) | [(_ & e & ->) | [(_ & content & ->) | (_ & _ & ->)]]].
      * eexists. split; [done |]. destruct Ht as [-> | ->]; vm_compute; repeat split; lia.
      * eexists. split; [done |]. vm_compute; repeat split; lia.
      * eexists. split; [done |]. vm_compute; repeat split; lia.
      * exists []. apply (Hnone true).
    + rewrite click_copy_run, copyToClipboard_run.
      destruct (export_offered (ui w)); [| exists []; apply (Hnone false)].
      eexists. split; [done |]. vm_compute; repeat split; lia.
    + rewrite click_download_run, downloadReadme_run.
      destruct (export_offered (ui w)); [| exists []; apply (Hnone false)].
      eexists. split; [done |]. vm_compute; repeat split; lia.
  - destruct (handle_edit_frame a w Hclick) as (-> & _). exists [].
    destruct a; try discriminate; apply (Hnone false).
Qed.

(** X10. Over a whole session the log balances: there are as many
    requests as writes of the credential, every request is answered to
    the user by exactly one "README Generated!" or "Generation Failed"
    toast, and there are never more requests than clicks on Generate (a
    click makes at most one request, nothing is retried). *)
Theorem session_requests (store : gmap jsstring jsstring) (actions : list action) :
  let evs := log (session store actions) in
  count_events is_fetch evs = count_events is_storage_set evs
  ∧ count_events is_fetch evs
    = (count_events is_ready_toast evs + count_events is_failed_toast evs)%nat
  ∧ (count_events is_fetch evs ≤ length (filter (λ a, is_generate a = true) actions))%nat.
Proof.
  cbn zeta. rewrite session_run_actions.
  induction actions as [| a actions (IH1 & IH2 & IH3)] using rev_ind; [done |].
  rewrite run_actions_snoc.
  destruct (handle_accounting a (run_actions actions (initial store)))
    as (evs & -> & H1 & H2 & H3).
  rewrite !count_events_app, filter_app, length_app.
  assert (length (filter (λ a, is_generate a = true) [a])
          = if is_generate a then 1%nat else 0%nat) as -> by by destruct a.
  lia.
Qed.

(** ** The license *)

Lemma handle_license (a : action) (w : world) :
  offered a →
  license (projectData (ui w)) ∈ licenses →
  license (projectData (ui (run (handle a) w))) ∈ licenses.
Proof.
  intros Ha Hw. destruct a; cbn [handle]; try done.
  - destruct (decide (trim (currentTech (ui w)) = []
                      ∨ trim (currentTech (ui w)) ∈ techStack (projectData (ui w))))
      as [Hskip | Hadd]; unfold run.
    + by rewrite addTechStack_skip.
    + by rewrite addTechStack_append by tauto.
  - destruct (decide (trim (currentFeature (ui w)) = []
                      ∨ trim (currentFeature (ui w)) ∈ features (projectData (ui w))))
      as [Hskip | Hadd]; unfold run.
    + by rewrite addFeature_skip.
    + by rewrite addFeature_append by tauto.
  - rewrite click_generate_run. destruct (generate_enabled (ui w)); [| done].
    by rewrite generateReadme_projectData.
  - rewrite click_copy_run, copyToClipboard_run. by destruct (export_offered (ui w)).
  - rewrite click_download_run, downloadReadme_run. by destruct (export_offered (ui w)).
Qed.

(** X11. The license of the form is always one of the ten identifiers
    of [licenses]: it starts as "MIT", and as long as the select passes
    one of its own items no event takes it out of the list. *)
Theorem session_license (store : gmap jsstring jsstring) (actions : list action) :
  Forall offered actions →
  license (projectData (ui (session store actions))) ∈ licenses.
Proof.
  rewrite session_run_actions.
  induction actions as [| a actions IH] using rev_ind.
  - intros _. apply includes_true. reflexivity.
  - rewrite Forall_app, Forall_singleton. intros [Hactions Ha].
    rewrite run_actions_snoc. apply handle_license; [done | by apply IH].
Qed.

Lemma session_license_witness :
  license (projectData (ui (session ∅ [ChangeLicense (str "GPL-3.0"); ChangeName (str "x");
                                       ChangeLicense (str "ISC")]))) ∈ licenses.
Proof.
  apply session_license. repeat constructor; apply includes_true; reflexivity.
Defined.

(** ** The request *)

(** X14. The one request of a call that passed its preconditions is a
    POST to the fixed chat-completions URL whose [Authorization] header
    is "Bearer " followed by the [apiKey] of the form, the same value
    the call has just stored.  The credential goes into that header
    only: the body of the request is the same whatever the [apiKey]
    is. *)
Theorem generate_request (net : fetch_result) (w : world) :
  preconditions (projectData (ui w)) = true →
  let p := projectData (ui w) in
  let w' := run (generateReadme net) w in
  ∃ req,
    filter (λ e, is_fetch e = true) (emitted w w') = [EFetch req]
    ∧ req_url req = str "https://api.groq.com/openai/v1/chat/completions"
    ∧ req_method req = str "POST"
    ∧ header (str "Authorization") (req_headers req) = Some (str "Bearer " ++ apiKey p)
    ∧ localStorage w' !! storage_key = Some (apiKey p)
    ∧ (∀ k, req_body (build_request (with_apiKey k p) (build_prompt (with_apiKey k p)))
            = req_body req).
Proof.
  intros Hpre p w'. subst w'. exists (build_request p (build_prompt p)).
  assert (Hfetch : filter (λ e, is_fetch e = true)
                     (emitted w (run (generateReadme net) w))
                   = [EFetch (build_request p (build_prompt p))]).
  { destruct (generateReadme_passed_cases net w Hpre) as [[e ->] | [r ->]].
    - by rewrite emitted_after_failure.
    - by rewrite emitted_after_success. }
  assert (Hstore : localStorage (run (generateReadme net) w) !! storage_key
                   = Some (apiKey p)).
  { destruct (generateReadme_passed_cases net w Hpre) as [[e ->] | [r ->]];
      apply lookup_insert_eq. }
  repeat split; done.
Qed.

Lemma generate_request_witness :
  let w' := run (generateReadme FetchRejected) widget_world in
  ∃ req,
    filter (λ e, is_fetch e = true) (emitted widget_world w') = [EFetch req]
    ∧ req_url req = str "https://api.groq.com/openai/v1/chat/completions"
    ∧ req_method req = str "POST"
    ∧ header (str "Authorization") (req_headers req) = Some (str "Bearer k1")
    ∧ localStorage w' !! storage_key = Some (str "k1")
    ∧ (∀ k, req_body (build_request (with_apiKey k widget) (build_prompt (with_apiKey k widget)))
            = req_body req).
Proof.
  refine (generate_request FetchRejected widget_world _). reflexivity.
Defined.

(** ** The fresh page and the busy flag *)

(** X15. On a freshly opened page a click on Generate, before anything
    is typed, never reaches the network and changes neither the form
    nor the storage: it reports [MissingCredential] when the storage
    holds no credential (or an empty one) and [IncompleteProject] when
    a credential was restored, because the name is still empty. *)
Theorem first_click_reports (store : gmap jsstring jsstring) (net : fetch_result) :
  let w := initial store in
  let w' := run (click_generate net) w in
  count_events is_fetch (log w') = 0%nat
  ∧ localStorage w' = store
  ∧ ui w' = ui w
  ∧ failure w w' = Some (if nonempty (stored_apiKey store)
                         then IncompleteProject else MissingCredential).
Proof.
  cbn zeta. rewrite click_generate_run. cbn [initial ui isGenerating generate_enabled negb].
  unfold run. destruct (nonempty (stored_apiKey store)) eqn:Hkey.
  - apply nonempty_true in Hkey.
    rewrite generateReadme_incomplete by (done || by left). by vm_compute.
  - apply nonempty_false in Hkey.
    rewrite generateReadme_no_key by done. by vm_compute.
Qed.

Lemma handle_flag_clear (a : action) (w : world) :
  write_returns a →
  isGenerating (ui w) = false → isGenerating (ui (run (handle a) w)) = false.
Proof.
  intros Ha Hw. destruct (is_click a) eqn:Hclick.
  - destruct a; try discriminate; cbn [handle].
    + rewrite click_generate_run. destruct (generate_enabled (ui w)); [| done].
      cbn in Ha.
      destruct (generateReadme_cases env w)
        as [(_ & t & _ & ->) | [(_ & e & ->) | [(_ & content & ->) | (_ & Hthrows & _)]]];
        try done. by rewrite Ha in Hthrows.
    + rewrite click_copy_run, copyToClipboard_run. by destruct (export_offered (ui w)).
    + rewrite click_download_run, downloadReadme_run. by destruct (export_offered (ui w)).
  - by destruct (handle_edit_frame a w Hclick) as (_ & _ & _ & ->).
Qed.

Lemma handle_flag_stuck (a : action) (w : world) :
  isGenerating (ui w) = true →
  isGenerating (ui (run (handle a) w)) = true
  ∧ count_events is_fetch (log (run (handle a) w)) = count_events is_fetch (log w)
  ∧ localStorage (run (handle a) w) = localStorage w.
Proof.
  intros Hw. destruct (is_click a) eqn:Hclick.
  - destruct a; try discriminate; cbn [handle].
    + rewrite click_generate_run. unfold generate_enabled. by rewrite Hw.
    + rewrite click_copy_run, copyToClipboard_run.
      destruct (export_offered (ui w)); [| done]. cbn [ui log localStorage].
      rewrite count_events_app. split; [done |]. split; [| done].
      rewrite Nat.add_comm. by vm_compute.
    + rewrite click_download_run, downloadReadme_run.
      destruct (export_offered (ui w)); [| done]. cbn [ui log localStorage].
      rewrite count_events_app. split; [done |]. split; [| done].
      rewrite Nat.add_comm. by vm_compute.
  - by destruct (handle_edit_frame a w Hclick) as (-> & -> & _ & ->).
Qed.

(** X16. Between the events of a session the flag is clear as long as
    every write of the credential returned.  A click on Generate that
    passes the preconditions and whose [localStorage.setItem] throws
    leaves the flag set, with no request and no toast: the flag is set
    and the credential written before the [try] block.  From a world
    with the flag set no later event clears it: a click on Generate does
    nothing, no request is made and the storage is not written. *)
Theorem session_busy_flag (store : gmap jsstring jsstring) (actions more : list action) :
  let w := session store actions in
  (Forall write_returns actions → isGenerating (ui w) = false ∧ status_of w ≠ generating)
  ∧ (∀ env,
       isGenerating (ui w) = false →
       preconditions (projectData (ui w)) = true →
       on_setItem env = SetItemThrows →
       isGenerating (ui (run (handle (ClickGenerate env)) w)) = true
       ∧ log (run (handle (ClickGenerate env)) w) = log w)
  ∧ (isGenerating (ui w) = true →
       let w' := run_actions more w in
       isGenerating (ui w') = true
       ∧ count_events is_fetch (log w') = count_events is_fetch (log w)
       ∧ localStorage w' = localStorage w).
Proof.
  cbn zeta. rewrite session_run_actions. split; [| split].
  - intros Hactions.
    assert (Hflag : isGenerating (ui (run_actions actions (initial store))) = false).
    { induction actions as [| a actions IH] using rev_ind; [done |].
      rewrite Forall_app, Forall_singleton in Hactions. destruct Hactions as [Hactions Ha].
      rewrite run_actions_snoc. apply handle_flag_clear; [done | by apply IH]. }
    split; [done |]. by rewrite status_of_generating, Hflag.
  - intros env Hflag Hpre Hthrows. cbn [handle]. rewrite click_generate_run.
    unfold generate_enabled. rewrite Hflag. cbn [negb].
    unfold run. by rewrite generateReadme_refused.
  - generalize (run_actions actions (initial store)). intros w Hw.
    induction more as [| a more (IH1 & IH2 & IH3)] using rev_ind; [done |].
    rewrite run_actions_snoc.
    destruct (handle_flag_stuck a (run_actions more w) IH1) as (-> & -> & ->). done.
Qed.

Lemma session_busy_flag_witness :
  let filled := [ChangeApiKey (str "k1"); ChangeName (str "Widget");
                 ChangeDescription (str "A widget.")] in
  let w0 := session ∅ (filled ++ [ClickGenerate (FetchResolved (mkResponse 200 None));
                                  ClickGenerate FetchRejected]) in
  let w1 := session ∅ (filled ++ [ClickGenerate storage_refuses]) in
  let w2 := run_actions [ClickGenerate FetchRejected; ChangeName (str "Gadget")] w1 in
  (isGenerating (ui w0) = false ∧ status_of w0 ≠ generating)
  ∧ (isGenerating (ui (run (handle (ClickGenerate storage_refuses)) w0)) = true
     ∧ log (run (handle (ClickGenerate storage_refuses)) w0) = log w0)
  ∧ (isGenerating (ui w2) = true
     ∧ count_events is_fetch (log w2) = count_events is_fetch (log w1)
     ∧ localStorage w2 = localStorage w1).
Proof.
  intros filled w0 w1 w2. split; [| split].
  - refine (proj1 (session_busy_flag ∅ _ []) _). repeat constructor.
  - refine (proj1 (proj2 (session_busy_flag ∅ _ [])) storage_refuses _ _ _); reflexivity.
  - refine (proj2 (proj2 (session_busy_flag ∅ _ _)) _). reflexivity.
Defined.
